(** * Gemini Notes: a shallow embedding of the note repository, the query
      engine, the editor session and the AI assist client.

    Sources embedded here:
    - [src/types.ts]                    ([Category], [Note], [AIResponse]);
    - [src/App.tsx]                     (the [App] component: state, handlers,
                                         the [disabled] gates of the buttons);
    - [src/services/geminiService.ts]   ([getSmartSuggestions], [enhanceNote]).

    JavaScript strings are modelled as [string], a sequence of 8-bit code
    units read as Latin-1 (the code units 0..255 of UTF-16).  Numbers that
    the program handles are clock readings ([Date.now()]), integers, and are
    modelled as [Z]. *)

From Stdlib Require Import ZArith List String Ascii Bool Lia Arith.
From Stdlib Require Import Decimal DecimalString DecimalZ DecimalPos DecimalFacts.
From Stdlib Require Import Permutation Sorted.
Import ListNotations.

#[local] Set Warnings "-register-all".
#[local] Set Warnings "-automation".

#[local] Open Scope list_scope.
#[local] Open Scope string_scope.

(** ** Characters that cannot be written inside a literal *)

Definition dquote : ascii := "034"%char.
Definition bslash : ascii := "092"%char.

(** ** The JavaScript built-ins the program calls on strings and numbers *)

Module JS.

(** [String.prototype.toLowerCase] on Latin-1 code units: [A-Z] and the
    accented capitals U+00C0..U+00DE (but not the multiplication sign U+00D7)
    move up by 32; every other code unit is its own lower case.  On this
    range the built-in works code unit by code unit; the lower cases that
    depend on the neighbours or change the length belong to letters outside
    Latin-1, which are outside the model. *)
Definition toLowerCase_char (c : ascii) : ascii :=
  let n := nat_of_ascii c in
  if (((65 <=? n) && (n <=? 90))
      || ((192 <=? n) && (n <=? 222) && negb (n =? 215)))%nat
  then ascii_of_nat (n + 32) else c.

Fixpoint toLowerCase (s : string) : string :=
  match s with
  | EmptyString => EmptyString
  | String c r => String (toLowerCase_char c) (toLowerCase r)
  end.

(** [String.prototype.includes]: the needle is a prefix of some suffix. *)
Fixpoint includes (s q : string) : bool :=
  prefix q s
  || match s with
     | EmptyString => false
     | String _ r => includes r q
     end.

(** [Number.prototype.toString] (radix 10) on an integer: an optional minus
    sign and the decimal digits without leading zero. *)
Definition Number_toString (z : Z) : string :=
  NilEmpty.string_of_int (Z.to_int z).

(** Truthiness of a string: only the empty string is falsy. *)
Definition truthy (s : string) : bool :=
  match s with EmptyString => false | String _ _ => true end.

(** [a || b] on strings. *)
Definition or_else (a b : string) : string := if truthy a then a else b.

(** [a || b] where [b] may be [undefined]. *)
Definition or_maybe (a : string) (b : option string) : option string :=
  if truthy a then Some a else b.

(** [a || b] where [a] may be [undefined]. *)
Definition maybe_or (a : option string) (b : string) : string :=
  match a with
  | Some t => or_else t b
  | None => b
  end.

End JS.

(** ** JSON values, [JSON.stringify] and [JSON.parse] *)

Module JSON.

(** A JavaScript value as [JSON.parse] builds it.  An object is the list of
    its own properties in insertion order. *)
Inductive json : Type :=
| JNull
| JBool (b : bool)
| JNum (z : Z)
| JStr (s : string)
| JArr (l : list json)
| JObj (m : list (string * json)).

(** What a call of [JSON.parse] does: it returns a value or throws a
    [SyntaxError].  [Unmodelled] marks the texts that are outside this model
    (a number with a fraction or an exponent, an escape of a code unit above
    255): the model says nothing about them.  [OutOfFuel] is the exhaustion
    of the recursion bound of the parser below; [parse] never ends there
    ([JSONFacts.parse_fuel_suffices]). *)
Inductive Res (A : Type) : Type :=
| Ok (a : A)
| SyntaxError
| Unmodelled
| OutOfFuel.
Arguments Ok {A} a.
Arguments SyntaxError {A}.
Arguments Unmodelled {A}.
Arguments OutOfFuel {A}.

Definition bind {A B} (r : Res A) (k : A -> Res B) : Res B :=
  match r with
  | Ok a => k a
  | SyntaxError => SyntaxError
  | Unmodelled => Unmodelled
  | OutOfFuel => OutOfFuel
  end.

Notation "' p <- r ;; k" := (bind r (fun p => k))
  (at level 61, p pattern, r at next level, right associativity).

(** *** Serialisation *)

Definition hex_digit (n : nat) : ascii :=
  match n with
  | 0 => "0" | 1 => "1" | 2 => "2" | 3 => "3" | 4 => "4" | 5 => "5"
  | 6 => "6" | 7 => "7" | 8 => "8" | 9 => "9" | 10 => "a" | 11 => "b"
  | 12 => "c" | 13 => "d" | 14 => "e" | _ => "f"
  end%char.

(** QuoteJSONString, one code unit. *)
Definition escape_char (c : ascii) : string :=
  let n := nat_of_ascii c in
  if (c =? dquote)%char then String bslash (String dquote EmptyString)
  else if (c =? bslash)%char then String bslash (String bslash EmptyString)
  else if (n =? 8)%nat then String bslash "b"
  else if (n =? 12)%nat then String bslash "f"
  else if (n =? 10)%nat then String bslash "n"
  else if (n =? 13)%nat then String bslash "r"
  else if (n =? 9)%nat then String bslash "t"
  else if (n <? 32)%nat then
    String bslash
      (String "u" (String "0" (String "0"
         (String (hex_digit (n / 16)) (String (hex_digit (n mod 16)) EmptyString)))))
  else String c EmptyString.

Fixpoint escape (s : string) : string :=
  match s with
  | EmptyString => EmptyString
  | String c r => escape_char c ++ escape r
  end.

Definition quote (s : string) : string :=
  String dquote (escape s ++ String dquote EmptyString).

(** The elements of an array or the members of an object, separated by
    commas. *)
Fixpoint commas (l : list string) : string :=
  match l with
  | [] => EmptyString
  | [x] => x
  | x :: r => x ++ "," ++ commas r
  end.

Fixpoint stringify (v : json) : string :=
  match v with
  | JNull => "null"
  | JBool true => "true"
  | JBool false => "false"
  | JNum z => JS.Number_toString z
  | JStr s => quote s
  | JArr l => "[" ++ commas (map stringify l) ++ "]"
  | JObj m =>
      "{" ++ commas (map (fun kv => quote (fst kv) ++ ":" ++ stringify (snd kv)) m)
          ++ "}"
  end.

(** *** Parsing *)

Definition is_ws (c : ascii) : bool :=
  (c =? " ")%char || (c =? "009")%char || (c =? "010")%char || (c =? "013")%char.

Fixpoint skip_ws (s : string) : string :=
  match s with
  | String c r => if is_ws c then skip_ws r else s
  | EmptyString => s
  end.

Definition is_digit (c : ascii) : bool :=
  let n := nat_of_ascii c in ((48 <=? n) && (n <=? 57))%nat.

Definition hex_val (c : ascii) : option nat :=
  let n := nat_of_ascii c in
  if ((48 <=? n) && (n <=? 57))%nat then Some (n - 48)
  else if ((97 <=? n) && (n <=? 102))%nat then Some (n - 87)
  else if ((65 <=? n) && (n <=? 70))%nat then Some (n - 55)
  else None.

Definition hex4 (a b c d : ascii) : option nat :=
  match hex_val a, hex_val b, hex_val c, hex_val d with
  | Some x, Some y, Some z, Some w => Some (((x * 16 + y) * 16 + z) * 16 + w)
  | _, _, _, _ => None
  end.

(** The character an escape letter stands for. *)
Definition unescape (e : ascii) : option ascii :=
  if (e =? dquote)%char then Some dquote
  else if (e =? bslash)%char then Some bslash
  else if (e =? "/")%char then Some "/"%char
  else if (e =? "b")%char then Some "008"%char
  else if (e =? "f")%char then Some "012"%char
  else if (e =? "n")%char then Some "010"%char
  else if (e =? "r")%char then Some "013"%char
  else if (e =? "t")%char then Some "009"%char
  else None.

Definition cons_char (c : ascii) (r : Res (string * string)) : Res (string * string) :=
  ' p <- r ;; Ok (String c (fst p), snd p).

(** The characters of a string literal, after its opening quote, up to and
    including the closing quote. *)
Fixpoint parse_chars (s : string) : Res (string * string) :=
  match s with
  | EmptyString => SyntaxError
  | String c r =>
      if (c =? dquote)%char then Ok (EmptyString, r)
      else if (c =? bslash)%char then
        match r with
        | EmptyString => SyntaxError
        | String e r1 =>
            if (e =? "u")%char then
              match r1 with
              | String h1 (String h2 (String h3 (String h4 r2))) =>
                  match hex4 h1 h2 h3 h4 with
                  | Some n =>
                      if (n <? 256)%nat then cons_char (ascii_of_nat n) (parse_chars r2)
                      else Unmodelled
                  | None => SyntaxError
                  end
              | _ => SyntaxError
              end
            else
              match unescape e with
              | Some c' => cons_char c' (parse_chars r1)
              | None => SyntaxError
              end
        end
      else if (nat_of_ascii c <? 32)%nat then SyntaxError
      else cons_char c (parse_chars r)
  end.

Definition digit_of_char (c : ascii) : option (uint -> uint) :=
  if (c =? "0")%char then Some D0
  else if (c =? "1")%char then Some D1
  else if (c =? "2")%char then Some D2
  else if (c =? "3")%char then Some D3
  else if (c =? "4")%char then Some D4
  else if (c =? "5")%char then Some D5
  else if (c =? "6")%char then Some D6
  else if (c =? "7")%char then Some D7
  else if (c =? "8")%char then Some D8
  else if (c =? "9")%char then Some D9
  else None.

(** The longest run of decimal digits at the front of [s]. *)
Fixpoint scan_uint (s : string) : uint * string :=
  match s with
  | EmptyString => (Nil, s)
  | String c r =>
      match digit_of_char c with
      | Some k => let p := scan_uint r in (k (fst p), snd p)
      | None => (Nil, s)
      end
  end.

Definition starts_frac_or_exp (s : string) : bool :=
  match s with
  | EmptyString => false
  | String c _ => (c =? ".")%char || (c =? "e")%char || (c =? "E")%char
  end.

Definition finish_number (neg : bool) (d : uint) (r : string) : Res (Z * string) :=
  if starts_frac_or_exp r then Unmodelled
  else Ok (Z.of_int (if neg then Neg d else Pos d), r).

(** The integer part of a number: a single [0], or a non-zero digit and the
    digits after it. *)
Definition parse_int_part (neg : bool) (s : string) : Res (Z * string) :=
  match s with
  | EmptyString => SyntaxError
  | String c r =>
      if (c =? "0")%char then finish_number neg (D0 Nil) r
      else if is_digit c then
        let p := scan_uint s in finish_number neg (fst p) (snd p)
      else SyntaxError
  end.

Definition parse_number (s : string) : Res (Z * string) :=
  match s with
  | EmptyString => SyntaxError
  | String c r =>
      if (c =? "-")%char then parse_int_part true r else parse_int_part false s
  end.

(** [strip lit s] removes the literal [lit] from the front of [s]. *)
Fixpoint strip (lit s : string) : option string :=
  match lit with
  | EmptyString => Some s
  | String a lit' =>
      match s with
      | EmptyString => None
      | String b s' => if (a =? b)%char then strip lit' s' else None
      end
  end.

Definition keyword {A} (lit : string) (v : A) (s : string) : Res (A * string) :=
  match strip lit s with
  | Some r => Ok (v, r)
  | None => SyntaxError
  end.

(** Defining a property on the object under construction: a key that is
    already there keeps its place and takes the new value. *)
Fixpoint obj_set (k : string) (v : json) (m : list (string * json))
  : list (string * json) :=
  match m with
  | [] => [(k, v)]
  | (k', v') :: r => if (k' =? k)%string then (k', v) :: r else (k', v') :: obj_set k v r
  end.

Definition obj_of_members (ms : list (string * json)) : list (string * json) :=
  fold_left (fun m kv => obj_set (fst kv) (snd kv) m) ms [].

Fixpoint parse_value (fuel : nat) (s : string) {struct fuel} : Res (json * string) :=
  match fuel with
  | O => OutOfFuel
  | S f =>
      match skip_ws s with
      | EmptyString => SyntaxError
      | String c r =>
          if (c =? "{")%char then
            match skip_ws r with
            | EmptyString => SyntaxError
            | String c1 r1 =>
                if (c1 =? "}")%char then Ok (JObj [], r1)
                else ' p <- parse_members f (String c1 r1) ;;
                     Ok (JObj (obj_of_members (fst p)), snd p)
            end
          else if (c =? "[")%char then
            match skip_ws r with
            | EmptyString => SyntaxError
            | String c1 r1 =>
                if (c1 =? "]")%char then Ok (JArr [], r1)
                else ' p <- parse_elements f (String c1 r1) ;;
                     Ok (JArr (fst p), snd p)
            end
          else if (c =? dquote)%char then
            ' p <- parse_chars r ;; Ok (JStr (fst p), snd p)
          else if (c =? "t")%char then keyword "rue" (JBool true) r
          else if (c =? "f")%char then keyword "alse" (JBool false) r
          else if (c =? "n")%char then keyword "ull" JNull r
          else ' p <- parse_number (String c r) ;; Ok (JNum (fst p), snd p)
      end
  end

with parse_elements (fuel : nat) (s : string) {struct fuel}
  : Res (list json * string) :=
  match fuel with
  | O => OutOfFuel
  | S f =>
      ' p <- parse_value f s ;;
      match skip_ws (snd p) with
      | EmptyString => SyntaxError
      | String c r =>
          if (c =? ",")%char then
            ' q <- parse_elements f r ;; Ok (fst p :: fst q, snd q)
          else if (c =? "]")%char then Ok ([fst p], r)
          else SyntaxError
      end
  end

with parse_members (fuel : nat) (s : string) {struct fuel}
  : Res (list (string * json) * string) :=
  match fuel with
  | O => OutOfFuel
  | S f =>
      match skip_ws s with
      | EmptyString => SyntaxError
      | String c r =>
          if (c =? dquote)%char then
            ' k <- parse_chars r ;;
            match skip_ws (snd k) with
            | EmptyString => SyntaxError
            | String c1 r1 =>
                if (c1 =? ":")%char then
                  ' p <- parse_value f r1 ;;
                  match skip_ws (snd p) with
                  | EmptyString => SyntaxError
                  | String c2 r2 =>
                      if (c2 =? ",")%char then
                        ' q <- parse_members f r2 ;;
                        Ok ((fst k, fst p) :: fst q, snd q)
                      else if (c2 =? "}")%char then Ok ([(fst k, fst p)], r2)
                      else SyntaxError
                  end
                else SyntaxError
            end
          else SyntaxError
      end
  end.

(** [JSON.parse]: one value, surrounded by optional white space, and nothing
    after it. *)
Definition parse (s : string) : Res json :=
  ' p <- parse_value (S (2 * String.length s)) s ;;
  match skip_ws (snd p) with
  | EmptyString => Ok (fst p)
  | String _ _ => SyntaxError
  end.

(** *** Measures and shapes used to state the round trip *)

(** The number of values in [v], each array element and object member
    counted once more: a bound on the fuel that parsing [stringify v] takes. *)
Fixpoint size (v : json) : nat :=
  match v with
  | JArr l => S (list_sum (map (fun x => S (size x)) l))
  | JObj m => S (list_sum (map (fun kv => S (size (snd kv))) m))
  | _ => 1
  end.

(** A JavaScript object has each key once. *)
Fixpoint wf (v : json) : Prop :=
  match v with
  | JArr l => fold_right (fun x P => wf x /\ P) True l
  | JObj m => NoDup (map fst m) /\ fold_right (fun kv P => wf (snd kv) /\ P) True m
  | _ => True
  end.

(** One member of an object, as [stringify] writes it. *)
Definition member (kv : string * json) : string :=
  quote (fst kv) ++ ":" ++ stringify (snd kv).

(** What can follow a value inside a text: nothing, or a separator. *)
Definition ends_value (rest : string) : bool :=
  match rest with
  | EmptyString => true
  | String c _ => (c =? ",")%char || (c =? "]")%char || (c =? "}")%char
  end.

Definition starts_value (s : string) : bool :=
  match s with
  | EmptyString => false
  | String c _ => negb (is_ws c) && negb (c =? "]")%char && negb (c =? "}")%char
  end.

Definition starts_number (s : string) : bool :=
  match s with
  | EmptyString => false
  | String c _ => is_digit c || (c =? "-")%char
  end.

(** A parser that, when it succeeds, has read at least one character. *)
Definition consumes {A} (p : string -> Res (A * string)) : Prop :=
  forall s a r, p s = Ok (a, r) -> String.length r < String.length s.

(** A result that is not the exhaustion of the fuel. *)
Definition fuelled {A} (r : Res A) : Prop := r <> OutOfFuel.

Definition roundtrips (v : json) : Prop :=
  wf v -> forall fuel rest,
    size v < fuel -> ends_value rest = true ->
    parse_value fuel (stringify v ++ rest) = Ok (v, rest).

(** Induction on values that reaches the elements of arrays and the members
    of objects. *)
Section json_induction.

Variable P : json -> Prop.
Hypothesis Hnull : P JNull.
Hypothesis Hbool : forall b, P (JBool b).
Hypothesis Hnum : forall z, P (JNum z).
Hypothesis Hstr : forall s, P (JStr s).
Hypothesis Harr : forall l, Forall P l -> P (JArr l).
Hypothesis Hobj : forall m, Forall (fun kv => P (snd kv)) m -> P (JObj m).

Fixpoint json_induction (v : json) : P v :=
  match v with
  | JNull => Hnull
  | JBool b => Hbool b
  | JNum z => Hnum z
  | JStr s => Hstr s
  | JArr l =>
      Harr l ((fix all (l : list json) : Forall P l :=
                 match l with
                 | [] => Forall_nil _
                 | x :: r => Forall_cons x (json_induction x) (all r)
                 end) l)
  | JObj m =>
      Hobj m ((fix all (m : list (string * json))
                 : Forall (fun kv => P (snd kv)) m :=
                 match m with
                 | [] => Forall_nil _
                 | kv :: r => Forall_cons kv (json_induction (snd kv)) (all r)
                 end) m)
  end.

End json_induction.

End JSON.

(** [Array.prototype.sort] with a comparator.  The language requires the sort
    to be stable, so for a consistent comparator the result is determined:
    [cmp a b > 0] puts [b] first, anything else keeps [a] before [b]. *)
Module JSArray.
Section Sort.

Context {A : Type} (cmp : A -> A -> Z).

Fixpoint insert (x : A) (l : list A) : list A :=
  match l with
  | [] => [x]
  | y :: r => if (cmp x y <=? 0)%Z then x :: l else y :: insert x r
  end.

Definition sort (l : list A) : list A := fold_right insert [] l.

End Sort.
End JSArray.

(** ** [src/types.ts] *)

Inductive Category : Type := Personal | Work | Ideas | Urgent | General.

Definition Category_eqb (a b : Category) : bool :=
  match a, b with
  | Personal, Personal | Work, Work | Ideas, Ideas
  | Urgent, Urgent | General, General => true
  | _, _ => false
  end.

(** The string a category is at run time. *)
Definition Category_to_string (c : Category) : string :=
  match c with
  | Personal => "Personal"
  | Work => "Work"
  | Ideas => "Ideas"
  | Urgent => "Urgent"
  | General => "General"
  end.

Definition Category_of_string (s : string) : option Category :=
  if (s =? "Personal")%string then Some Personal
  else if (s =? "Work")%string then Some Work
  else if (s =? "Ideas")%string then Some Ideas
  else if (s =? "Urgent")%string then Some Urgent
  else if (s =? "General")%string then Some General
  else None.

Record Note : Type := mkNote {
  id : string;
  title : string;
  content : string;
  category : Category;
  updatedAt : Z;
  isFavorite : bool
}.

Module AIResponse.

Record t : Type := mk {
  title : option string;
  summary : option string;
  suggestedCategory : option Category
}.

(** The object literal [{}]. *)
Definition empty : t := mk None None None.

End AIResponse.

(** *** Notes as run-time values *)

Import JSON.

(** The object a [Note] is at run time; the properties are in the order in
    which [handleAddNote] writes them, which spreading and parsing keep. *)
Definition note_to_json (n : Note) : json :=
  JObj [ ("id", JStr (id n));
         ("title", JStr (title n));
         ("content", JStr (content n));
         ("category", JStr (Category_to_string (category n)));
         ("updatedAt", JNum (updatedAt n));
         ("isFavorite", JBool (isFavorite n)) ].

Definition notes_to_json (ns : list Note) : json := JArr (map note_to_json ns).

(** The typed reading of a run-time value as a [Note]: exactly the objects
    that [note_to_json] builds, the six properties in the order in which the
    page writes them.  (The code reads properties by name; an object with
    the properties in another order, or with more of them, has no reading
    here.) *)
Definition note_of_json (j : json) : option Note :=
  match j with
  | JObj [ (k1, JStr i); (k2, JStr t); (k3, JStr c); (k4, JStr g);
           (k5, JNum u); (k6, JBool f) ] =>
      if ((k1 =? "id") && (k2 =? "title") && (k3 =? "content")
          && (k4 =? "category") && (k5 =? "updatedAt") && (k6 =? "isFavorite"))%string
      then match Category_of_string g with
           | Some cat => Some (mkNote i t c cat u f)
           | None => None
           end
      else None
  | _ => None
  end.

Fixpoint notes_of_list (l : list json) : option (list Note) :=
  match l with
  | [] => Some []
  | j :: r =>
      match note_of_json j, notes_of_list r with
      | Some n, Some ns => Some (n :: ns)
      | _, _ => None
      end
  end.

Definition notes_of_json (j : json) : option (list Note) :=
  match j with
  | JArr l => notes_of_list l
  | _ => None
  end.

Fixpoint lookup (k : string) (m : list (string * json)) : option json :=
  match m with
  | [] => None
  | (k', v) :: r => if (k' =? k)%string then Some v else lookup k r
  end.

(** The typed reading of a run-time value as an [AIResponse]: an object whose
    three properties, where present, have the declared types. *)
Definition AIResponse_of_json (j : json) : option AIResponse.t :=
  let opt_string (o : option json) : option (option string) :=
    match o with
    | None => Some None
    | Some (JStr s) => Some (Some s)
    | Some _ => None
    end in
  let opt_category (o : option json) : option (option Category) :=
    match o with
    | None => Some None
    | Some (JStr s) => option_map Some (Category_of_string s)
    | Some _ => None
    end in
  match j with
  | JObj m =>
      match opt_string (lookup "title" m), opt_string (lookup "summary" m),
            opt_category (lookup "suggestedCategory" m) with
      | Some t, Some s, Some c => Some (AIResponse.mk t s c)
      | _, _, _ => None
      end
  | _ => None
  end.

(** ** [src/services/geminiService.ts] *)

Module geminiService.

(** What [ai.models.generateContent] does with a prompt: it resolves with a
    response whose [text] may be undefined, or it rejects. *)
Inductive Remote : Type :=
| Responds (text : option string)
| Rejects.

Definition suggestPrompt (content : string) : string :=
  "Analyze this note and provide a concise title, a short summary (1 sentence), and the most appropriate category (Personal, Work, Ideas, Urgent, or General). Content: "
  ++ String dquote (content ++ String dquote EmptyString).

Definition enhancePrompt (content : string) : string :=
  "Clean up the grammar and formatting of the following note while keeping its original meaning. Use bullet points if helpful. Content: "
  ++ String dquote (content ++ String dquote EmptyString).

(** [response.text || fallback]. *)
Definition text_or (text : option string) (fallback : string) : string :=
  JS.maybe_or text fallback.

(** [getSmartSuggestions]: the prompts sent to the remote model, and the value
    the promise resolves with ([None]: a text outside the JSON model).  The
    promise never rejects: the [catch] branch returns [{}]. *)
Definition getSmartSuggestions (ai : string -> Remote) (content : string)
  : list string * option json :=
  if negb (JS.truthy content) || (String.length content <? 10)%nat
  then ([], Some (JObj []))
  else
    let prompt := suggestPrompt content in
    ([prompt],
     match ai prompt with
     | Responds text =>
         match JSON.parse (text_or text "{}") with
         | Ok result => Some result
         | SyntaxError => Some (JObj [])
         | Unmodelled | OutOfFuel => None
         end
     | Rejects => Some (JObj [])
     end).

(** [enhanceNote]: the prompts sent, and the text the promise resolves with. *)
Definition enhanceNote (ai : string -> Remote) (content : string)
  : list string * string :=
  let prompt := enhancePrompt content in
  ([prompt],
   match ai prompt with
   | Responds text => text_or text content
   | Rejects => content
   end).

End geminiService.

(** ** [src/App.tsx] *)

Module App.
Import geminiService.

Definition CATEGORIES : list Category := [General; Personal; Work; Ideas; Urgent].

(** The type [Category | 'All'] of [selectedCategory]. *)
Inductive CategoryFilter : Type :=
| All
| Only (c : Category).

(** The slot ['notes-app-data'] of [localStorage]: [getItem] gives [null]
    ([None]) or the stored string. *)
Definition Storage : Type := option string.

(** The initialiser of the [notes] state:
    [saved ? JSON.parse(saved) : []].  The value is what [JSON.parse] built;
    [SyntaxError] is the exception it throws, which nothing catches. *)
Definition load (saved : Storage) : Res json :=
  match saved with
  | Some s => if JS.truthy s then JSON.parse s else Ok (JArr [])
  | None => Ok (JArr [])
  end.

(** The persistence effect:
    [localStorage.setItem('notes-app-data', JSON.stringify(notes))]. *)
Definition persist (notes : list Note) : Storage :=
  Some (JSON.stringify (notes_to_json notes)).

(** *** The query engine: [filteredNotes] *)

Definition matchesSearch (searchQuery : string) (note : Note) : bool :=
  JS.includes (JS.toLowerCase (title note)) (JS.toLowerCase searchQuery)
  || JS.includes (JS.toLowerCase (content note)) (JS.toLowerCase searchQuery).

Definition matchesCategory (selectedCategory : CategoryFilter) (note : Note) : bool :=
  match selectedCategory with
  | All => true
  | Only c => Category_eqb (category note) c
  end.

Definition byUpdatedAtDesc (a b : Note) : Z := (updatedAt b - updatedAt a)%Z.

Definition filteredNotes (notes : list Note) (searchQuery : string)
    (selectedCategory : CategoryFilter) : list Note :=
  JSArray.sort byUpdatedAtDesc
    (filter (fun note => matchesSearch searchQuery note
                         && matchesCategory selectedCategory note) notes).

(** *** The updaters passed to [setNotes] and [setEditingNote] *)

Definition stamp (now : Z) (n : Note) : Note :=
  mkNote (id n) (title n) (content n) (category n) now (isFavorite n).

(** [handleSaveNote]'s updater; [now] is the reading of [Date.now()]. *)
Definition saveNote (now : Z) (updatedNote : Note) (prev : list Note) : list Note :=
  match find (fun n => (id n =? id updatedNote)%string) prev with
  | Some _ =>
      map (fun n => if (id n =? id updatedNote)%string then stamp now updatedNote else n)
          prev
  | None => (prev ++ [stamp now updatedNote])%list
  end.

(** [handleDeleteNote]'s updater. *)
Definition deleteNote (i : string) (prev : list Note) : list Note :=
  filter (fun n => negb (id n =? i)%string) prev.

Definition flip (n : Note) : Note :=
  mkNote (id n) (title n) (content n) (category n) (updatedAt n)
         (negb (isFavorite n)).

(** [toggleFavorite]'s updater. *)
Definition toggleFavorite (i : string) (prev : list Note) : list Note :=
  map (fun n => if (id n =? i)%string then flip n else n) prev.

(** The draft that [handleAddNote] opens; [Date.now()] is read twice. *)
Definition newDraft (now_id now_updated : Z) : Note :=
  mkNote (JS.Number_toString now_id) EmptyString EmptyString General
         now_updated false.

(** [handleAISuggestions]'s updater:
    [title: prev.title || suggestions.title || '',
     category: suggestions.suggestedCategory || prev.category]. *)
Definition applySuggestions (suggestions : AIResponse.t) (prev : option Note)
  : option Note :=
  match prev with
  | Some p =>
      Some (mkNote (id p)
              (JS.maybe_or (JS.or_maybe (title p) (AIResponse.title suggestions))
                           EmptyString)
              (content p)
              (match AIResponse.suggestedCategory suggestions with
               | Some c => c
               | None => category p
               end)
              (updatedAt p) (isFavorite p))
  | None => None
  end.

(** [handleAIEnhance]'s updater. *)
Definition applyEnhanced (enhanced : string) (prev : option Note) : option Note :=
  match prev with
  | Some p =>
      Some (mkNote (id p) (title p) enhanced (category p) (updatedAt p) (isFavorite p))
  | None => None
  end.

(** Truthiness of a value. *)
Definition truthy_value (j : json) : bool :=
  match j with
  | JNull => false
  | JBool b => b
  | JNum z => negb (z =? 0)%Z
  | JStr s => JS.truthy s
  | JArr _ | JObj _ => true
  end.

(** Reading the property [k] off the value that the promise resolved with,
    for the two names that the updater reads, [title] and
    [suggestedCategory]: an object gives its own property or [undefined]
    ([Some None]); a number, a string, a boolean and an array have neither
    name and give [undefined]; on [null] the read throws a [TypeError]
    ([None]). *)
Definition read (suggestions : json) (k : string) : option (option json) :=
  match suggestions with
  | JNull => None
  | JObj m => Some (lookup k m)
  | _ => Some None
  end.

(** What the updater of [handleAISuggestions] does on the value that the
    promise resolved with, whatever its type: it returns the next draft, or
    it throws, or it returns a draft that is no [Note] any more (a title that
    is no string, a category outside the five). *)
Inductive Settled : Type :=
| Updated (e : option Note)
| Throws
| Untyped.

Definition settleSuggestions (suggestions : json) (prev : option Note) : Settled :=
  match prev with
  | None => Updated None
  | Some p =>
      match read suggestions "title", read suggestions "suggestedCategory" with
      | Some t, Some g =>
          let title' : option string :=
            if JS.truthy (title p) then Some (title p)
            else match t with
                 | Some v =>
                     if truthy_value v
                     then match v with JStr u => Some u | _ => None end
                     else Some EmptyString
                 | None => Some EmptyString
                 end in
          let category' : option Category :=
            match g with
            | Some v =>
                if truthy_value v
                then match v with JStr u => Category_of_string u | _ => None end
                else Some (category p)
            | None => Some (category p)
            end in
          match title', category' with
          | Some t', Some c' =>
              Updated (Some (mkNote (id p) t' (content p) c' (updatedAt p)
                                    (isFavorite p)))
          | _, _ => Untyped
          end
      | _, _ => Throws
      end
  end.

(** *** The component state *)

(** An AI handler whose promise has not settled yet, with the content it was
    started on. *)
Inductive AICall : Type :=
| Suggesting (content : string)
| Enhancing (content : string).

Record State : Type := mkState {
  notes : list Note;
  searchQuery : string;
  selectedCategory : CategoryFilter;
  editingNote : option Note;
  isNoteModalOpen : bool;
  isAILoading : bool;
  inFlight : list AICall;
  localStorage : Storage
}.

Definition setNotes (f : list Note -> list Note) (s : State) : State :=
  let ns := f (notes s) in
  mkState ns (searchQuery s) (selectedCategory s) (editingNote s)
          (isNoteModalOpen s) (isAILoading s) (inFlight s) (persist ns).

Definition setSearchQuery (q : string) (s : State) : State :=
  mkState (notes s) q (selectedCategory s) (editingNote s)
          (isNoteModalOpen s) (isAILoading s) (inFlight s) (localStorage s).

Definition setSelectedCategory (c : CategoryFilter) (s : State) : State :=
  mkState (notes s) (searchQuery s) c (editingNote s)
          (isNoteModalOpen s) (isAILoading s) (inFlight s) (localStorage s).

Definition setEditingNote (f : option Note -> option Note) (s : State) : State :=
  mkState (notes s) (searchQuery s) (selectedCategory s) (f (editingNote s))
          (isNoteModalOpen s) (isAILoading s) (inFlight s) (localStorage s).

Definition setIsNoteModalOpen (b : bool) (s : State) : State :=
  mkState (notes s) (searchQuery s) (selectedCategory s) (editingNote s)
          b (isAILoading s) (inFlight s) (localStorage s).

Definition setIsAILoading (b : bool) (s : State) : State :=
  mkState (notes s) (searchQuery s) (selectedCategory s) (editingNote s)
          (isNoteModalOpen s) b (inFlight s) (localStorage s).

Definition setInFlight (l : list AICall) (s : State) : State :=
  mkState (notes s) (searchQuery s) (selectedCategory s) (editingNote s)
          (isNoteModalOpen s) (isAILoading s) l (localStorage s).

(** The first render: the state initialisers, then the persistence effect.
    [None]: the initialiser threw, or the stored value is not a collection
    as the page writes it ([notes_of_json]); on such a value the model says
    nothing. *)
Definition mount (saved : Storage) : option State :=
  match load saved with
  | Ok j =>
      match notes_of_json j with
      | Some ns => Some (mkState ns EmptyString All None false false [] (persist ns))
      | None => None
      end
  | _ => None
  end.

(** *** The handlers *)

Definition handleAddNote (now_id now_updated : Z) (s : State) : State :=
  setIsNoteModalOpen true (setEditingNote (fun _ => Some (newDraft now_id now_updated)) s).

Definition handleEditNote (note : Note) (s : State) : State :=
  setIsNoteModalOpen true (setEditingNote (fun _ => Some note) s).

Definition handleSaveNote (now : Z) (updatedNote : Note) (s : State) : State :=
  setEditingNote (fun _ => None)
    (setIsNoteModalOpen false (setNotes (saveNote now updatedNote) s)).

Definition handleDeleteNote (i : string) (confirmed : bool) (s : State) : State :=
  if confirmed then setNotes (deleteNote i) s else s.

Definition handleToggleFavorite (i : string) (s : State) : State :=
  setNotes (toggleFavorite i) s.

(** The synchronous part of [handleAISuggestions], up to the [await]. *)
Definition handleAISuggestions (s : State) : State :=
  match editingNote s with
  | None => s
  | Some e =>
      if negb (JS.truthy (content e)) then s
      else setInFlight (inFlight s ++ [Suggesting (content e)])%list (setIsAILoading true s)
  end.

(** The synchronous part of [handleAIEnhance], up to the [await]. *)
Definition handleAIEnhance (s : State) : State :=
  match editingNote s with
  | None => s
  | Some e =>
      if negb (JS.truthy (content e)) then s
      else setInFlight (inFlight s ++ [Enhancing (content e)])%list (setIsAILoading true s)
  end.

(** After the [await] of [handleAIEnhance]: the [try] body, then [finally]. *)
Definition enhancedArrived (enhanced : string) (s : State) : State :=
  setIsAILoading false (setEditingNote (applyEnhanced enhanced) s).

(** After the [await] of [handleAISuggestions], once the updater has returned
    the draft [e]: the [try] body, then [finally]. *)
Definition draftSettled (e : option Note) (s : State) : State :=
  setIsAILoading false (setEditingNote (fun _ => e) s).

(** *** What the rendered page lets the user do *)

(** The modal is rendered when [isNoteModalOpen && editingNote]. *)
Definition modal (s : State) : option Note :=
  if isNoteModalOpen s then editingNote s else None.

(** The [disabled] attribute of the Smart Suggest and AI Enhance buttons:
    [isAILoading || !editingNote.content]. *)
Definition aiButtonDisabled (s : State) (e : Note) : bool :=
  isAILoading s || negb (JS.truthy (content e)).

Inductive Event : Type :=
| ClickNewNote (now_id now_updated : Z)
| ClickCard (k : nat)
| ClickStar (k : nat)
| ClickTrash (k : nat) (confirmed : bool)
| TypeSearch (q : string)
| SelectCategory (c : CategoryFilter)
| ModalSelect (c : Category)
| ModalStar
| ModalClose
| ModalTitle (t : string)
| ModalContent (t : string)
| ClickSmartSuggest
| ClickAIEnhance
| ClickSave (now : Z)
| SuggestSettles (r : Remote)
| EnhanceSettles (r : Remote)
| Reload.

(** The [k]-th card of the grid. *)
Definition card (s : State) (k : nat) : option Note :=
  nth_error (filteredNotes (notes s) (searchQuery s) (selectedCategory s)) k.

Definition onCard (s : State) (k : nat) (h : Note -> State) : option State :=
  match card s k with
  | Some note => Some (h note)
  | None => Some s
  end.

Definition onModal (s : State) (h : Note -> State) : option State :=
  match modal s with
  | Some e => Some (h e)
  | None => Some s
  end.

Definition editDraft (f : Note -> Note) (s : State) : option State :=
  onModal s (fun e => setEditingNote (fun _ => Some (f e)) s).

(** One event of the page.  An event on an element that is not rendered or
    is disabled leaves the state as it is.  [None]: an exception reached the
    top (the updater of [handleAISuggestions] throwing on the answer [null],
    the initialiser of [notes] throwing at a restart), or a value left the
    declared types or the JSON model. *)
Definition step (s : State) (ev : Event) : option State :=
  match ev with
  | ClickNewNote now_id now_updated => Some (handleAddNote now_id now_updated s)
  | ClickCard k => onCard s k (fun note => handleEditNote note s)
  | ClickStar k => onCard s k (fun note => handleToggleFavorite (id note) s)
  | ClickTrash k confirmed =>
      onCard s k (fun note => handleDeleteNote (id note) confirmed s)
  | TypeSearch q => Some (setSearchQuery q s)
  | SelectCategory c => Some (setSelectedCategory c s)
  | ModalSelect c =>
      editDraft (fun e => mkNote (id e) (title e) (content e) c (updatedAt e)
                                 (isFavorite e)) s
  | ModalStar => editDraft flip s
  | ModalClose => onModal s (fun _ => setIsNoteModalOpen false s)
  | ModalTitle t =>
      editDraft (fun e => mkNote (id e) t (content e) (category e) (updatedAt e)
                                 (isFavorite e)) s
  | ModalContent t =>
      editDraft (fun e => mkNote (id e) (title e) t (category e) (updatedAt e)
                                 (isFavorite e)) s
  | ClickSmartSuggest =>
      onModal s (fun e => if aiButtonDisabled s e then s else handleAISuggestions s)
  | ClickAIEnhance =>
      onModal s (fun e => if aiButtonDisabled s e then s else handleAIEnhance s)
  | ClickSave now => onModal s (fun e => handleSaveNote now e s)
  | SuggestSettles r =>
      match inFlight s with
      | Suggesting c :: rest =>
          match snd (getSmartSuggestions (fun _ => r) c) with
          | Some j =>
              match settleSuggestions j (editingNote s) with
              | Updated e => Some (setInFlight rest (draftSettled e s))
              | Throws | Untyped => None
              end
          | None => None
          end
      | _ => Some s
      end
  | EnhanceSettles r =>
      match inFlight s with
      | Enhancing c :: rest =>
          Some (setInFlight rest
                  (enhancedArrived (snd (enhanceNote (fun _ => r) c)) s))
      | _ => Some s
      end
  | Reload => mount (localStorage s)
  end.

Fixpoint run (s : State) (evs : list Event) : option State :=
  match evs with
  | [] => Some s
  | ev :: r =>
      match step s ev with
      | Some s' => run s' r
      | None => None
      end
  end.

(** *** The counters of the sidebar: [stats] *)

(** [acc[cat] = v] on the object that [reduce] builds. *)
Fixpoint assign (cat : Category) (v : nat) (acc : list (Category * nat))
  : list (Category * nat) :=
  match acc with
  | [] => [(cat, v)]
  | (k, w) :: r =>
      if Category_eqb k cat then (k, v) :: r else (k, w) :: assign cat v r
  end.

Record Stats : Type := mkStats {
  total : nat;
  favorites : nat;
  categories : list (Category * nat)
}.

Definition stats (notes : list Note) : Stats :=
  mkStats
    (List.length notes)
    (List.length (filter isFavorite notes))
    (fold_left
       (fun acc cat =>
          assign cat
            (List.length (filter (fun n => Category_eqb (category n) cat) notes))
            acc)
       CATEGORIES []).

(** The number on the button of a category: [stats.categories[cat] || 0]. *)
Fixpoint badge_of (cat : Category) (acc : list (Category * nat)) : nat :=
  match acc with
  | [] => 0
  | (k, w) :: r => if Category_eqb k cat then w else badge_of cat r
  end.

Definition badge (st : Stats) (cat : Category) : nat := badge_of cat (categories st).

(** *** The export: [handleDownloadPDF] *)

(** The class [\s] of regular expressions on Latin-1 code units: tab, line
    feed, vertical tab, form feed, carriage return, space and no-break
    space. *)
Definition is_space (c : ascii) : bool :=
  let n := nat_of_ascii c in
  (((9 <=? n) && (n <=? 13)) || (n =? 32) || (n =? 160))%nat.

(** [s.replace(/\s+/g, '_')]: every maximal run of white space becomes one
    underscore.  [in_run] tells that the code unit before was white space. *)
Fixpoint underscore_runs (in_run : bool) (s : string) : string :=
  match s with
  | EmptyString => EmptyString
  | String c r =>
      if is_space c then
        if in_run then underscore_runs true r
        else String "_" (underscore_runs true r)
      else String c (underscore_runs false r)
  end.

(** What [handleDownloadPDF] hands to the PDF library: the heading, the
    category of the sub-heading, the body that is split into lines, and the
    name of the saved file.  (The date of the sub-heading is rendered in the
    locale of the browser and is left out.) *)
Record Download : Type := mkDownload {
  docTitle : string;
  docCategory : Category;
  docContent : string;
  fileName : string
}.

Definition handleDownloadPDF (editingNote : option Note) : option Download :=
  match editingNote with
  | None => None
  | Some e =>
      let t := JS.or_else (title e) "Untitled Note" in
      Some (mkDownload t (category e) (JS.or_else (content e) EmptyString)
                       (underscore_runs false t ++ ".pdf"))
  end.

End App.

(** ** Definitions that the statements below use *)

Module Spec.
Import App.

(** "[q] occurs as a case-insensitive substring of [s]": the lower-cased
    search term lies somewhere inside the lower-cased text. *)
Definition ci_substring (q s : string) : Prop :=
  exists a b, JS.toLowerCase s = a ++ JS.toLowerCase q ++ b.

Definition is_empty (s : string) : bool :=
  match s with EmptyString => true | String _ _ => false end.

(** The filter of the query engine in the words of the specification: the
    category filter is the sentinel or the note's category, and the search
    term is empty or lies in the title or in the content, ignoring case. *)
Definition spec_matches (searchTerm : string) (categoryFilter : CategoryFilter)
    (n : Note) : bool :=
  match categoryFilter with
  | All => true
  | Only c => Category_eqb c (category n)
  end
  && (is_empty searchTerm
      || JS.includes (JS.toLowerCase (title n)) (JS.toLowerCase searchTerm)
      || JS.includes (JS.toLowerCase (content n)) (JS.toLowerCase searchTerm)).

(** The state of a first start on an empty storage slot. *)
Definition fresh : State :=
  mkState [] EmptyString All None false false [] (persist []).

(** The clock readings that became ids of drafts during a run. *)
Definition created_by (ev : Event) : list Z :=
  match ev with
  | ClickNewNote now_id _ => [now_id]
  | _ => []
  end.

Definition created (evs : list Event) : list Z := flat_map created_by evs.

(** Every id of the state is the rendering of a clock reading in [cs]. *)
Definition ids_from (cs : list Z) (s : State) : Prop :=
  (forall n, In n (notes s) -> exists t, In t cs /\ id n = JS.Number_toString t)
  /\ (forall e, editingNote s = Some e ->
                exists t, In t cs /\ id e = JS.Number_toString t).

(** The storage slot holds the collection, and the ids of the collection are
    pairwise distinct. *)
Definition repository_ok (s : State) : Prop :=
  localStorage s = persist (notes s) /\ NoDup (map id (notes s)).

(** The busy flag covers every AI call that has not settled, and there is at
    most one of them. *)
Definition serialized (s : State) : Prop :=
  (List.length (inFlight s) <= 1)%nat /\ (inFlight s <> [] -> isAILoading s = true).

(** "[a] is at least as recent as [b]". *)
Definition newer_first (a b : Note) : Prop := (updatedAt a >= updatedAt b)%Z.

End Spec.

(** ** Sample data: the scenarios of the specification *)

Module Samples.
Import App.

Definition groceries : Note :=
  mkNote "1" "Groceries" "buy milk" Personal 100 false.
Definition groceries_edited : Note :=
  mkNote "1" "Groceries" "buy milk and eggs" Personal 100 false.
Definition meeting : Note :=
  mkNote "2" "Budget meeting" "Quarterly BUDGET review" Work 300 true.
Definition idea : Note :=
  mkNote "3" "Trip" "ask about the budget" Ideas 250 false.

Definition draft : Note :=
  mkNote "1700000000000" EmptyString "buy milk and eggs today" General
         1700000000000 false.

(** The editor open on [draft], no AI call pending. *)
Definition editing : State :=
  mkState [] EmptyString All (Some draft) true false [] (persist []).

(** The editor while a suggestion request is pending. *)
Definition busy : State :=
  mkState [] EmptyString All
          (Some (mkNote "1" EmptyString "buy milk and eggs today" General 1 false))
          true true [Suggesting "buy milk and eggs today"] (persist []).

(** A note is created at clock reading 1000, saved, and deleted. *)
Definition created_and_saved : list Event :=
  [ClickNewNote 1000 1000; ModalTitle "Groceries"; ClickSave 1001].
Definition then_deleted : list Event := [ClickTrash 0 true].
Definition saved_note : Note :=
  mkNote "1000" "Groceries" EmptyString General 1001 false.

(** An answer of the remote model, as a value and as the text it comes in. *)
Definition answer : json :=
  JObj [ ("title", JStr "Shopping");
         ("summary", JStr "A shopping list.");
         ("suggestedCategory", JStr "Personal") ].
Definition answer_text : string := JSON.stringify answer.
Definition answer_tail : string :=
  match answer_text with
  | EmptyString => EmptyString
  | String _ r => r
  end.

(** The editor while a suggestion request on the content of [draft] is
    pending. *)
Definition waiting : State :=
  mkState [] EmptyString All (Some draft) true true
          [Suggesting "buy milk and eggs today"] (persist []).

(** A note whose title has runs of white space. *)
Definition trip : Note :=
  mkNote "4" "Trip   to  Rome" "book the flights" Personal 500 false.

End Samples.

(** ** Definitions that the further properties use *)

Module Further.
Import App.

(** What [handleSaveNote] puts in the place of a note [m] of the collection. *)
Definition replace_by (T : Z) (n : Note) (m : Note) : Note :=
  if (id m =? id n)%string then stamp T n else m.

(** "[n] was last updated at [t]". *)
Definition updated_at (t : Z) (n : Note) : bool := (updatedAt n =? t)%Z.

(** The storage slot holds the collection of the state. *)
Definition written (s : State) : Prop := localStorage s = persist (notes s).

(** The events whose handlers call [setNotes]. *)
Definition touches_repository (ev : Event) : bool :=
  match ev with
  | ClickSave _ | ClickStar _ | ClickTrash _ true => true
  | _ => false
  end.

(** Note [n] after its title and content were typed over and it was saved at
    [now]. *)
Definition edited (n : Note) (t c : string) (now : Z) : Note :=
  mkNote (id n) t c (category n) now (isFavorite n).

(** The note that comes of a new draft with the given title and content. *)
Definition created_note (now_id : Z) (t c : string) (now : Z) : Note :=
  mkNote (JS.Number_toString now_id) t c General now false.

(** No code unit of [s] is white space. *)
Fixpoint no_space (s : string) : bool :=
  match s with
  | EmptyString => true
  | String c r => negb (is_space c) && no_space r
  end.

(** Every code unit of [s] is white space. *)
Fixpoint all_space (s : string) : bool :=
  match s with
  | EmptyString => true
  | String c r => is_space c && all_space r
  end.

(** [s] is empty or starts with a code unit that is no white space. *)
Definition starts_clean (s : string) : bool :=
  match s with
  | EmptyString => true
  | String c _ => negb (is_space c)
  end.

(** A value that suggests nothing: neither [null] nor an object with a
    [title] or a [suggestedCategory]. *)
Definition suggests_nothing (j : json) : Prop :=
  match j with
  | JNull => False
  | JObj m => lookup "title" m = None /\ lookup "suggestedCategory" m = None
  | _ => True
  end.

(** A remote call without suggestions: it rejects, or its answer has no
    text or an empty one, or a text that is no JSON, or a text that parses to
    a value that suggests nothing. *)
Definition without_suggestions (r : geminiService.Remote) : Prop :=
  r = geminiService.Rejects
  \/ r = geminiService.Responds None
  \/ r = geminiService.Responds (Some EmptyString)
  \/ exists a text,
       r = geminiService.Responds (Some (String a text))
       /\ (JSON.parse (String a text) = SyntaxError
           \/ exists j, JSON.parse (String a text) = Ok j /\ suggests_nothing j).

End Further.

(** * Facts *)

(** ** Strings *)

Module StringFacts.

Lemma append_assoc (a b c : string) : (a ++ b) ++ c = a ++ (b ++ c).
Proof. induction a as [|x a IH]; simpl; [reflexivity | now rewrite IH]. Qed.

Lemma append_nil_r (a : string) : a ++ EmptyString = a.
Proof. induction a as [|x a IH]; simpl; [reflexivity | now rewrite IH]. Qed.

Lemma length_append (a b : string) :
  String.length (a ++ b) = String.length a + String.length b.
Proof. induction a as [|x a IH]; simpl; [reflexivity | now rewrite IH]. Qed.

End StringFacts.

(** ** [JSON.parse] after [JSON.stringify] *)

Module JSONFacts.
Import JSON StringFacts.

Lemma parse_escape_char (c : ascii) (x : string) :
  parse_chars (escape_char c ++ x) = cons_char c (parse_chars x).
Proof. destruct c as [[] [] [] [] [] [] [] []]; reflexivity. Qed.

Lemma parse_chars_escape (s rest : string) :
  parse_chars (escape s ++ String dquote rest) = Ok (s, rest).
Proof.
  induction s as [|c s IH]; simpl.
  - reflexivity.
  - rewrite append_assoc, parse_escape_char, IH. reflexivity.
Qed.

Lemma ends_value_no_digit rest :
  ends_value rest = true -> scan_uint rest = (Nil, rest).
Proof.
  destruct rest as [|c r]; simpl; [reflexivity|].
  intros H. apply orb_prop in H. destruct H as [H|H].
  - apply orb_prop in H. destruct H as [H|H]; apply Ascii.eqb_eq in H; subst; reflexivity.
  - apply Ascii.eqb_eq in H; subst; reflexivity.
Qed.

Lemma ends_value_no_frac rest :
  ends_value rest = true -> starts_frac_or_exp rest = false.
Proof.
  destruct rest as [|c r]; simpl; [reflexivity|].
  intros H. apply orb_prop in H. destruct H as [H|H].
  - apply orb_prop in H. destruct H as [H|H]; apply Ascii.eqb_eq in H; subst; reflexivity.
  - apply Ascii.eqb_eq in H; subst; reflexivity.
Qed.

Lemma scan_uint_digits (d : uint) (rest : string) :
  ends_value rest = true ->
  scan_uint (NilEmpty.string_of_uint d ++ rest) = (d, rest).
Proof.
  intros H. induction d; simpl; try (rewrite IHd; reflexivity).
  now apply ends_value_no_digit.
Qed.

Lemma to_uint_head (p : positive) :
  match Pos.to_uint p with Nil | D0 _ => False | _ => True end.
Proof.
  pose proof (Unsigned.to_uint_nonnil p) as Hnil.
  pose proof (Unsigned.to_uint_nonzero p) as Hz.
  assert (E : Pos.to_uint p = unorm (Pos.to_uint p)).
  { rewrite <- (Unsigned.to_of (Pos.to_uint p)), Unsigned.of_to. reflexivity. }
  destruct (Pos.to_uint p) as [|d|d|d|d|d|d|d|d|d|d] eqn:Ed; try exact I.
  - congruence.
  - exfalso. rewrite unorm_D0 in E. unfold unorm in E.
    destruct (nzhead d) as [|u|u|u|u|u|u|u|u|u|u] eqn:En; try discriminate.
    + apply Hz. rewrite E. reflexivity.
    + exact (nzhead_nonzero d u En).
Qed.

Lemma parse_int_part_digits (neg : bool) (p : positive) (rest : string) :
  ends_value rest = true ->
  parse_int_part neg (NilEmpty.string_of_uint (Pos.to_uint p) ++ rest)
  = Ok (Z.of_int (if neg then Neg (Pos.to_uint p) else Pos (Pos.to_uint p)), rest).
Proof.
  intros H. pose proof (to_uint_head p) as Hh.
  pose proof (scan_uint_digits (Pos.to_uint p) rest H) as Hs.
  unfold parse_int_part.
  destruct (Pos.to_uint p) as [|d|d|d|d|d|d|d|d|d|d]; try contradiction;
    cbn [NilEmpty.string_of_uint append]; cbn [NilEmpty.string_of_uint append] in Hs;
    rewrite Hs; cbn; unfold finish_number; rewrite (ends_value_no_frac _ H); reflexivity.
Qed.

Lemma parse_number_toString (z : Z) (rest : string) :
  ends_value rest = true ->
  parse_number (JS.Number_toString z ++ rest) = Ok (z, rest).
Proof.
  intros H. unfold JS.Number_toString.
  rewrite <- (DecimalZ.of_to z) at 2.
  destruct z as [|p|p]; cbn [Z.to_int NilEmpty.string_of_int].
  - cbn. unfold finish_number. rewrite (ends_value_no_frac _ H). reflexivity.
  - pose proof (to_uint_head p) as Hh.
    pose proof (parse_int_part_digits false p rest H) as Hp.
    unfold parse_number.
    destruct (Pos.to_uint p) as [|d|d|d|d|d|d|d|d|d|d]; try contradiction;
      cbn [NilEmpty.string_of_uint append] in *; exact Hp.
  - cbn [append]. unfold parse_number.
    change (("-" =? "-")%char) with true. cbv iota.
    apply (parse_int_part_digits true p rest H).
Qed.

Lemma skip_ws_value s : starts_value s = true -> skip_ws s = s.
Proof.
  destruct s as [|c r]; simpl; [discriminate|].
  destruct (is_ws c); simpl; [discriminate | reflexivity].
Qed.

Lemma starts_number_value s : starts_number s = true -> starts_value s = true.
Proof.
  destruct s as [|c r]; simpl; [discriminate|].
  destruct c as [[] [] [] [] [] [] [] []]; simpl; intros H; try reflexivity; discriminate.
Qed.

Lemma starts_number_toString z rest : starts_number (JS.Number_toString z ++ rest) = true.
Proof.
  unfold JS.Number_toString. destruct z as [|p|p]; cbn [Z.to_int NilEmpty.string_of_int]; try reflexivity.
  pose proof (to_uint_head p) as Hh.
  destruct (Pos.to_uint p); try contradiction; reflexivity.
Qed.

Lemma parse_value_number f s :
  starts_number s = true ->
  parse_value (S f) s = ' p <- parse_number s ;; Ok (JNum (fst p), snd p).
Proof.
  destruct s as [|c r]; simpl starts_number; [discriminate|].
  destruct c as [[] [] [] [] [] [] [] []]; intros H; try discriminate H; reflexivity.
Qed.

Lemma starts_value_stringify v rest : starts_value (stringify v ++ rest) = true.
Proof.
  destruct v as [|[]|z|s|l|m]; try reflexivity.
  apply starts_number_value, starts_number_toString.
Qed.

Lemma obj_set_fresh k v m :
  ~ In k (map fst m) -> obj_set k v m = (m ++ [(k, v)])%list.
Proof.
  induction m as [|[k' v'] m IH]; simpl; intros H; [reflexivity|].
  destruct (String.eqb_spec k' k) as [->|Hne].
  - exfalso. apply H. now left.
  - rewrite IH; [reflexivity|]. intros Hin. apply H. now right.
Qed.

Lemma fold_obj_set ms acc :
  NoDup (map fst (acc ++ ms)%list) ->
  fold_left (fun m kv => obj_set (fst kv) (snd kv) m) ms acc = (acc ++ ms)%list.
Proof.
  revert acc. induction ms as [|[k v] ms IH]; intros acc H; simpl.
  - now rewrite List.app_nil_r.
  - rewrite obj_set_fresh.
    + rewrite IH; rewrite <- List.app_assoc; [reflexivity | exact H].
    + rewrite map_app in H. simpl in H. apply NoDup_remove_2 in H.
      intros Hin. apply H. apply in_or_app. now left.
Qed.

Lemma obj_of_members_nodup ms : NoDup (map fst ms) -> obj_of_members ms = ms.
Proof. intros H. unfold obj_of_members. now rewrite fold_obj_set. Qed.

Lemma parse_value_S f s :
  parse_value (S f) s =
  match skip_ws s with
  | EmptyString => SyntaxError
  | String c r =>
      if (c =? "{")%char then
        match skip_ws r with
        | EmptyString => SyntaxError
        | String c1 r1 =>
            if (c1 =? "}")%char then Ok (JObj [], r1)
            else ' p <- parse_members f (String c1 r1) ;;
                 Ok (JObj (obj_of_members (fst p)), snd p)
        end
      else if (c =? "[")%char then
        match skip_ws r with
        | EmptyString => SyntaxError
        | String c1 r1 =>
            if (c1 =? "]")%char then Ok (JArr [], r1)
            else ' p <- parse_elements f (String c1 r1) ;;
                 Ok (JArr (fst p), snd p)
        end
      else if (c =? dquote)%char then
        ' p <- parse_chars r ;; Ok (JStr (fst p), snd p)
      else if (c =? "t")%char then keyword "rue" (JBool true) r
      else if (c =? "f")%char then keyword "alse" (JBool false) r
      else if (c =? "n")%char then keyword "ull" JNull r
      else ' p <- parse_number (String c r) ;; Ok (JNum (fst p), snd p)
  end.
Proof. reflexivity. Qed.

Lemma parse_elements_S f s :
  parse_elements (S f) s =
  ' p <- parse_value f s ;;
  match skip_ws (snd p) with
  | EmptyString => SyntaxError
  | String c r =>
      if (c =? ",")%char then
        ' q <- parse_elements f r ;; Ok (fst p :: fst q, snd q)
      else if (c =? "]")%char then Ok ([fst p], r)
      else SyntaxError
  end.
Proof. reflexivity. Qed.

Lemma parse_members_S f s :
  parse_members (S f) s =
  match skip_ws s with
  | EmptyString => SyntaxError
  | String c r =>
      if (c =? dquote)%char then
        ' k <- parse_chars r ;;
        match skip_ws (snd k) with
        | EmptyString => SyntaxError
        | String c1 r1 =>
            if (c1 =? ":")%char then
              ' p <- parse_value f r1 ;;
              match skip_ws (snd p) with
              | EmptyString => SyntaxError
              | String c2 r2 =>
                  if (c2 =? ",")%char then
                    ' q <- parse_members f r2 ;;
                    Ok ((fst k, fst p) :: fst q, snd q)
                  else if (c2 =? "}")%char then Ok ([(fst k, fst p)], r2)
                  else SyntaxError
              end
            else SyntaxError
        end
      else SyntaxError
  end.
Proof. reflexivity. Qed.

Lemma parse_elements_commas (l : list json) :
  l <> [] -> Forall roundtrips l ->
  fold_right (fun x P => wf x /\ P) True l ->
  forall fuel rest,
    list_sum (map (fun x => S (size x)) l) < fuel ->
    parse_elements fuel (commas (map stringify l) ++ String "]" rest) = Ok (l, rest).
Proof.
  induction l as [|x l IH]; [congruence|].
  intros _ Hall Hwf fuel rest Hfuel.
  inversion Hall as [|? ? Hx Hl]; subst. destruct Hwf as [Hwx Hwl].
  destruct fuel as [|f]; [inversion Hfuel|].
  rewrite parse_elements_S.
  cbn [map list_sum] in Hfuel.
  destruct l as [|y l].
  - cbn [map commas].
    rewrite (Hx Hwx f (String "]" rest)) by (simpl in *; try lia; reflexivity).
    reflexivity.
  - change (commas (map stringify (x :: y :: l)))
      with (stringify x ++ "," ++ commas (map stringify (y :: l))).
    rewrite append_assoc. cbn [append].
    rewrite (Hx Hwx f) by (simpl in *; try lia; reflexivity).
    cbn [bind snd fst skip_ws is_ws Ascii.eqb Bool.eqb orb].
    change ((("," =? ",")%char)) with true. cbv iota.
    rewrite IH; [reflexivity | discriminate | assumption | assumption | simpl in *; lia].
Qed.

Lemma member_append k v x :
  member (k, v) ++ x = String dquote (escape k ++ String dquote (String ":" (stringify v ++ x))).
Proof.
  unfold member, quote. cbn [fst snd append].
  rewrite !append_assoc. cbn [append]. reflexivity.
Qed.

Lemma parse_members_commas (m : list (string * json)) :
  m <> [] -> Forall (fun kv => roundtrips (snd kv)) m ->
  fold_right (fun kv P => wf (snd kv) /\ P) True m ->
  forall fuel rest,
    list_sum (map (fun kv => S (size (snd kv))) m) < fuel ->
    parse_members fuel (commas (map member m) ++ String "}" rest) = Ok (m, rest).
Proof.
  induction m as [|[k v] m IH]; [congruence|].
  intros _ Hall Hwf fuel rest Hfuel.
  inversion Hall as [|? ? Hx Hl]; subst. destruct Hwf as [Hwx Hwl].
  cbn [snd] in Hx, Hwx.
  destruct fuel as [|f]; [inversion Hfuel|].
  rewrite parse_members_S.
  cbn [map list_sum snd] in Hfuel.
  destruct m as [|y m].
  - cbn [map commas]. rewrite member_append.
    cbn [skip_ws is_ws]. change (is_ws dquote) with false. cbv iota.
    change ((dquote =? dquote)%char) with true. cbv iota.
    rewrite parse_chars_escape. cbn [bind snd fst skip_ws].
    change (is_ws ":") with false. cbv iota.
    change ((":" =? ":")%char) with true. cbv iota.
    rewrite (Hx Hwx f (String "}" rest)) by (simpl in *; try lia; reflexivity).
    reflexivity.
  - change (commas (map member ((k, v) :: y :: m)))
      with (member (k, v) ++ "," ++ commas (map member (y :: m))).
    rewrite append_assoc, member_append. cbn [append].
    cbn [skip_ws is_ws]. change (is_ws dquote) with false. cbv iota.
    change ((dquote =? dquote)%char) with true. cbv iota.
    rewrite parse_chars_escape. cbn [bind snd fst skip_ws].
    change (is_ws ":") with false. cbv iota.
    change ((":" =? ":")%char) with true. cbv iota.
    rewrite (Hx Hwx f) by (simpl in *; try lia; reflexivity).
    cbn [bind snd fst skip_ws].
    change (is_ws ",") with false. cbv iota.
    change ((("," =? ",")%char)) with true. cbv iota.
    rewrite IH; [reflexivity | discriminate | assumption | assumption | simpl in *; lia].
Qed.

Lemma stringify_obj m : stringify (JObj m) = "{" ++ commas (map member m) ++ "}".
Proof. reflexivity. Qed.

Lemma skip_value_branch {A} (s : string) (a : Res A) (stop : ascii)
      (b : string -> Res A) (g : string -> Res A) :
  starts_value s = true -> (stop = "]" \/ stop = "}")%char ->
  match skip_ws s with
  | EmptyString => a
  | String c1 r1 => if (c1 =? stop)%char then b r1 else g (String c1 r1)
  end = g s.
Proof.
  intros H Hstop. rewrite (skip_ws_value s H).
  destruct s as [|c r]; [discriminate|]. simpl in H.
  destruct (Ascii.eqb_spec c stop) as [->|]; [|reflexivity].
  destruct Hstop as [->| ->]; destruct (is_ws _); discriminate.
Qed.

Lemma starts_value_commas (l : list string) x :
  l <> [] -> (forall s y, In s l -> starts_value (s ++ y) = true) ->
  starts_value (commas l ++ x) = true.
Proof.
  destruct l as [|s l]; [congruence|]. intros _ H.
  destruct l as [|t l].
  - apply H. now left.
  - change (commas (s :: t :: l)) with (s ++ "," ++ commas (t :: l)).
    rewrite append_assoc. apply H. now left.
Qed.

Theorem parse_value_stringify (v : json) : roundtrips v.
Proof.
  induction v as [| b | z | s | l IH | m IH] using json_induction;
    intros Hwf fuel rest Hfuel Hend;
    (destruct fuel as [|f]; [inversion Hfuel|]).
  - reflexivity.
  - destruct b; reflexivity.
  - cbn [stringify].
    rewrite parse_value_number by apply starts_number_toString.
    rewrite parse_number_toString by assumption. reflexivity.
  - cbn [stringify]. unfold quote. cbn [append]. rewrite append_assoc. cbn [append].
    rewrite parse_value_S. cbn [skip_ws]. change (is_ws dquote) with false. cbv iota.
    change ((dquote =? "{")%char) with false. change ((dquote =? "[")%char) with false.
    change ((dquote =? dquote)%char) with true. cbv iota.
    rewrite parse_chars_escape. reflexivity.
  - cbn [stringify append]. rewrite parse_value_S.
    cbn [skip_ws]. change (is_ws "[") with false. cbv iota.
    change (("[" =? "{")%char) with false. change (("[" =? "[")%char) with true. cbv iota.
    destruct l as [|x l]; [reflexivity|].
    rewrite append_assoc. cbn [append].
    rewrite (skip_value_branch _ _ "]"%char (fun r1 => Ok (JArr [], r1))
               (fun s => ' p <- parse_elements f s ;; Ok (JArr (fst p), snd p))).
    + rewrite parse_elements_commas; [reflexivity | discriminate | assumption | exact Hwf |].
      cbn [size] in Hfuel. lia.
    + apply starts_value_commas; [discriminate|].
      intros s y Hin. apply in_map_iff in Hin. destruct Hin as [w [<- _]].
      apply starts_value_stringify.
    + now left.
  - rewrite stringify_obj. cbn [append]. rewrite parse_value_S.
    cbn [skip_ws]. change (is_ws "{") with false. cbv iota.
    change (("{" =? "{")%char) with true. cbv iota.
    destruct Hwf as [Hnd Hwf].
    destruct m as [|kv m]; [reflexivity|].
    rewrite append_assoc. cbn [append].
    rewrite (skip_value_branch _ _ "}"%char (fun r1 => Ok (JObj [], r1))
               (fun s => ' p <- parse_members f s ;;
                         Ok (JObj (obj_of_members (fst p)), snd p))).
    + rewrite parse_members_commas; [| discriminate | assumption | exact Hwf |].
      * cbn [bind fst snd]. now rewrite obj_of_members_nodup.
      * cbn [size] in Hfuel. lia.
    + apply starts_value_commas; [discriminate|].
      intros s y Hin. apply in_map_iff in Hin. destruct Hin as [[k w] [<- _]].
      rewrite member_append. reflexivity.
    + now right.
Qed.

Lemma length_commas {A} (f : A -> string) (g : A -> nat) (l : list A) :
  Forall (fun x => g x <= String.length (f x)) l ->
  list_sum (map (fun x => S (g x)) l) <= S (String.length (commas (map f l))).
Proof.
  induction 1 as [|x l Hx Hl IH]; [simpl; lia|].
  destruct l as [|y l].
  - simpl in *. lia.
  - change (commas (map f (x :: y :: l))) with (f x ++ "," ++ commas (map f (y :: l))).
    rewrite !length_append.
    change (list_sum (map (fun x0 => S (g x0)) (x :: y :: l)))
      with (S (g x) + list_sum (map (fun x0 => S (g x0)) (y :: l))).
    change (String.length ",") with 1. lia.
Qed.

Lemma length_toString z : 1 <= String.length (JS.Number_toString z).
Proof.
  unfold JS.Number_toString. destruct z as [|p|p]; cbn [Z.to_int NilEmpty.string_of_int].
  - simpl. lia.
  - pose proof (to_uint_head p). destruct (Pos.to_uint p); try contradiction; simpl; lia.
  - simpl. lia.
Qed.

Lemma size_le_length (v : json) : size v <= String.length (stringify v).
Proof.
  induction v as [| b | z | s | l IH | m IH] using json_induction.
  - simpl. lia.
  - destruct b; simpl; lia.
  - apply length_toString.
  - simpl. lia.
  - cbn [size stringify]. rewrite !length_append.
    pose proof (length_commas stringify size l IH). simpl String.length. lia.
  - rewrite stringify_obj. cbn [size]. rewrite !length_append.
    pose proof (length_commas member (fun kv => size (snd kv)) m) as H.
    simpl String.length.
    assert (Forall (fun x => size (snd x) <= String.length (member x)) m) as Hm.
    { eapply Forall_impl; [|exact IH]. intros [k w] Hk. unfold member.
      rewrite !length_append. cbn [snd] in *. lia. }
    specialize (H Hm). lia.
Qed.

Theorem parse_stringify (v : json) : wf v -> parse (stringify v) = Ok v.
Proof.
  intros Hwf. unfold parse.
  pose proof (parse_value_stringify v Hwf (S (2 * String.length (stringify v))) EmptyString) as H.
  rewrite append_nil_r in H. rewrite H; [reflexivity | | reflexivity].
  pose proof (size_le_length v). lia.
Qed.

(** *** The fuel of [parse] is enough *)

Lemma skip_ws_length s : String.length (skip_ws s) <= String.length s.
Proof.
  induction s as [|c s IH]; simpl; [lia|]. destruct (is_ws c); simpl; lia.
Qed.

Lemma skip_ws_cons s c r : skip_ws s = String c r -> String.length r < String.length s.
Proof. intros H. pose proof (skip_ws_length s) as L. rewrite H in L. simpl in L. lia. Qed.

Lemma bind_ok {A B} (r : Res A) (k : A -> Res B) b :
  bind r k = Ok b -> exists a, r = Ok a /\ k a = Ok b.
Proof. destruct r; simpl; try discriminate. eauto. Qed.

Lemma bind_fuelled {A B} (r : Res A) (k : A -> Res B) :
  fuelled r -> (forall a, r = Ok a -> fuelled (k a)) -> fuelled (bind r k).
Proof. unfold fuelled. destruct r; simpl; auto; congruence. Qed.

Lemma parse_chars_facts n :
  forall s, String.length s <= n ->
    fuelled (parse_chars s)
    /\ forall k r, parse_chars s = Ok (k, r) -> String.length r < String.length s.
Proof.
  induction n as [|n IH]; intros s Hn.
  - destruct s; [|simpl in Hn; lia]. split; [discriminate | discriminate].
  - destruct s as [|c s]; [split; discriminate|]. simpl in Hn.
    cbn [parse_chars].
    destruct (c =? dquote)%char.
    { split; [discriminate|]. intros k r [= <- <-]. simpl. lia. }
    destruct (c =? bslash)%char.
    { destruct s as [|e r1]; [split; discriminate|].
      destruct (e =? "u")%char.
      - destruct r1 as [|h1 [|h2 [|h3 [|h4 r2]]]]; try (split; discriminate).
        destruct (hex4 h1 h2 h3 h4) as [m|]; [|split; discriminate].
        destruct (m <? 256)%nat; [|split; discriminate].
        destruct (IH r2) as [F C]; [simpl in Hn; lia|].
        split.
        + apply bind_fuelled; [exact F | discriminate].
        + intros k r H. apply bind_ok in H. destruct H as [[k' r'] [H1 H2]].
          injection H2 as <- <-. apply C in H1. simpl in *. lia.
      - destruct (unescape e); [|split; discriminate].
        destruct (IH r1) as [F C]; [simpl in Hn; lia|].
        split.
        + apply bind_fuelled; [exact F | discriminate].
        + intros k r H. apply bind_ok in H. destruct H as [[k' r'] [H1 H2]].
          injection H2 as <- <-. apply C in H1. simpl in *. lia. }
    destruct (nat_of_ascii c <? 32)%nat; [split; discriminate|].
    destruct (IH s) as [F C]; [lia|].
    split.
    + apply bind_fuelled; [exact F | discriminate].
    + intros k r H. apply bind_ok in H. destruct H as [[k' r'] [H1 H2]].
      injection H2 as <- <-. apply C in H1. simpl in *. lia.
Qed.

Lemma parse_chars_fuelled s : fuelled (parse_chars s).
Proof. exact (proj1 (parse_chars_facts (String.length s) s (le_n _))). Qed.

Lemma parse_chars_consumes : consumes parse_chars.
Proof. intros s k r. exact (proj2 (parse_chars_facts (String.length s) s (le_n _)) k r). Qed.

Lemma scan_uint_length s : String.length (snd (scan_uint s)) <= String.length s.
Proof.
  induction s as [|c s IH]; simpl; [lia|].
  destruct (digit_of_char c); simpl; lia.
Qed.

Lemma finish_number_facts neg d r :
  fuelled (finish_number neg d r)
  /\ forall z r', finish_number neg d r = Ok (z, r') -> r' = r.
Proof.
  unfold finish_number. destruct (starts_frac_or_exp r); split; try discriminate.
  now intros z r' [= _ <-].
Qed.

Lemma parse_int_part_facts neg s :
  fuelled (parse_int_part neg s)
  /\ forall z r, parse_int_part neg s = Ok (z, r) -> String.length r < String.length s.
Proof.
  unfold parse_int_part. destruct s as [|c s]; [split; discriminate|].
  destruct (c =? "0")%char.
  - destruct (finish_number_facts neg (D0 Nil) s) as [F E]. split; [exact F|].
    intros z r H. apply E in H. subst. simpl. lia.
  - destruct (is_digit c) eqn:Hd; [|split; discriminate].
    destruct (finish_number_facts neg (fst (scan_uint (String c s)))
                (snd (scan_uint (String c s)))) as [F E].
    split; [exact F|]. intros z r H. apply E in H. subst.
    cbn [scan_uint]. destruct (digit_of_char c) eqn:Hdc.
    + cbn [snd]. pose proof (scan_uint_length s). simpl. lia.
    + exfalso. revert Hd Hdc. clear.
      destruct c as [[] [] [] [] [] [] [] []]; vm_compute; intros; discriminate.
Qed.

Lemma parse_number_facts s :
  fuelled (parse_number s)
  /\ forall z r, parse_number s = Ok (z, r) -> String.length r < String.length s.
Proof.
  unfold parse_number. destruct s as [|c s]; [split; discriminate|].
  destruct (c =? "-")%char.
  - destruct (parse_int_part_facts true s) as [F C]. split; [exact F|].
    intros z r H. apply C in H. simpl. lia.
  - apply parse_int_part_facts.
Qed.

Lemma strip_length lit s r : strip lit s = Some r -> String.length r <= String.length s.
Proof.
  revert s. induction lit as [|a lit IH]; intros s; simpl.
  - now intros [= <-].
  - destruct s as [|b s]; [discriminate|]. destruct (a =? b)%char; [|discriminate].
    intros H. apply IH in H. simpl. lia.
Qed.

Lemma keyword_facts {A} lit (v : A) s :
  fuelled (keyword lit v s)
  /\ forall a r, keyword lit v s = Ok (a, r) -> String.length r <= String.length s.
Proof.
  unfold keyword. destruct (strip lit s) eqn:E; split; try discriminate.
  intros a r [= _ <-]. eapply strip_length; eauto.
Qed.

Ltac inv_bind H :=
  let p := fresh "p" in let H1 := fresh "H" in
  apply bind_ok in H; destruct H as [p [H1 H]]; destruct p as [? ?]; cbn [fst snd] in H.

Lemma parse_consumes fuel :
  (forall s v r, parse_value fuel s = Ok (v, r) -> String.length r < String.length s)
  /\ (forall s l r, parse_elements fuel s = Ok (l, r) -> String.length r < String.length s)
  /\ (forall s m r, parse_members fuel s = Ok (m, r) -> String.length r < String.length s).
Proof.
  induction fuel as [|f [IHv [IHe IHm]]]; [repeat split; discriminate|].
  split; [|split].
  - intros s v r. rewrite parse_value_S.
    destruct (skip_ws s) as [|c r0] eqn:Es; [discriminate|].
    apply skip_ws_cons in Es.
    destruct (c =? "{")%char.
    { destruct (skip_ws r0) as [|c1 r1] eqn:E1; [discriminate|].
      pose proof (skip_ws_length r0) as L. rewrite E1 in L.
      destruct (c1 =? "}")%char.
      - intros [= _ <-]. simpl in L. lia.
      - intros H. inv_bind H. injection H as _ <-. apply IHm in H0. lia. }
    destruct (c =? "[")%char.
    { destruct (skip_ws r0) as [|c1 r1] eqn:E1; [discriminate|].
      pose proof (skip_ws_length r0) as L. rewrite E1 in L.
      destruct (c1 =? "]")%char.
      - intros [= _ <-]. simpl in L. lia.
      - intros H. inv_bind H. injection H as _ <-. apply IHe in H0. lia. }
    destruct (c =? dquote)%char.
    { intros H. inv_bind H. injection H as _ <-. apply parse_chars_consumes in H0. lia. }
    destruct (c =? "t")%char.
    { intros H. apply (proj2 (keyword_facts _ _ _)) in H. lia. }
    destruct (c =? "f")%char.
    { intros H. apply (proj2 (keyword_facts _ _ _)) in H. lia. }
    destruct (c =? "n")%char.
    { intros H. apply (proj2 (keyword_facts _ _ _)) in H. lia. }
    intros H. inv_bind H. injection H as _ <-.
    apply (proj2 (parse_number_facts _)) in H0. simpl in H0. lia.
  - intros s l r. rewrite parse_elements_S. intros H. inv_bind H.
    apply IHv in H0.
    destruct (skip_ws s0) as [|c r1] eqn:E1; [discriminate|].
    apply skip_ws_cons in E1.
    destruct (c =? ",")%char.
    + inv_bind H. injection H as _ <-. apply IHe in H1. lia.
    + destruct (c =? "]")%char; [|discriminate]. injection H as _ <-. lia.
  - intros s m r. rewrite parse_members_S.
    destruct (skip_ws s) as [|c r0] eqn:Es; [discriminate|].
    apply skip_ws_cons in Es.
    destruct (c =? dquote)%char; [|discriminate].
    intros H. inv_bind H. apply parse_chars_consumes in H0.
    destruct (skip_ws s1) as [|c1 r1] eqn:E1; [discriminate|].
    apply skip_ws_cons in E1.
    destruct (c1 =? ":")%char; [|discriminate].
    inv_bind H. apply IHv in H1.
    destruct (skip_ws s2) as [|c2 r2] eqn:E2; [discriminate|].
    apply skip_ws_cons in E2.
    destruct (c2 =? ",")%char.
    + inv_bind H. injection H as _ <-. apply IHm in H2. lia.
    + destruct (c2 =? "}")%char; [|discriminate]. injection H as _ <-. lia.
Qed.

Lemma parse_fuelled fuel :
  (forall s, 2 * String.length s < fuel -> fuelled (parse_value fuel s))
  /\ (forall s, 2 * String.length s + 1 < fuel -> fuelled (parse_elements fuel s))
  /\ (forall s, 2 * String.length s + 1 < fuel -> fuelled (parse_members fuel s)).
Proof.
  induction fuel as [|f [IHv [IHe IHm]]]; [repeat split; intros; lia|].
  split; [|split].
  - intros s Hf. rewrite parse_value_S.
    destruct (skip_ws s) as [|c r0] eqn:Es; [discriminate|].
    apply skip_ws_cons in Es.
    destruct (c =? "{")%char.
    { destruct (skip_ws r0) as [|c1 r1] eqn:E1; [discriminate|].
      pose proof (skip_ws_length r0) as L. rewrite E1 in L.
      destruct (c1 =? "}")%char; [discriminate|].
      apply bind_fuelled; [apply IHm; lia | discriminate]. }
    destruct (c =? "[")%char.
    { destruct (skip_ws r0) as [|c1 r1] eqn:E1; [discriminate|].
      pose proof (skip_ws_length r0) as L. rewrite E1 in L.
      destruct (c1 =? "]")%char; [discriminate|].
      apply bind_fuelled; [apply IHe; lia | discriminate]. }
    destruct (c =? dquote)%char.
    { apply bind_fuelled; [apply parse_chars_fuelled | discriminate]. }
    destruct (c =? "t")%char; [apply keyword_facts|].
    destruct (c =? "f")%char; [apply keyword_facts|].
    destruct (c =? "n")%char; [apply keyword_facts|].
    apply bind_fuelled; [apply parse_number_facts | discriminate].
  - intros s Hf. rewrite parse_elements_S.
    apply bind_fuelled; [apply IHv; lia|].
    intros [v r0] H0. cbn [fst snd].
    apply (proj1 (parse_consumes f)) in H0.
    destruct (skip_ws r0) as [|c r1] eqn:E1; [discriminate|].
    apply skip_ws_cons in E1.
    destruct (c =? ",")%char.
    + apply bind_fuelled; [apply IHe; lia | discriminate].
    + destruct (c =? "]")%char; discriminate.
  - intros s Hf. rewrite parse_members_S.
    destruct (skip_ws s) as [|c r0] eqn:Es; [discriminate|].
    apply skip_ws_cons in Es.
    destruct (c =? dquote)%char; [|discriminate].
    apply bind_fuelled; [apply parse_chars_fuelled|].
    intros [k r1] H0. cbn [fst snd]. apply parse_chars_consumes in H0.
    destruct (skip_ws r1) as [|c1 r2] eqn:E1; [discriminate|].
    apply skip_ws_cons in E1.
    destruct (c1 =? ":")%char; [|discriminate].
    apply bind_fuelled; [apply IHv; lia|].
    intros [v r3] H1. cbn [fst snd].
    apply (proj1 (parse_consumes f)) in H1.
    destruct (skip_ws r3) as [|c2 r4] eqn:E2; [discriminate|].
    apply skip_ws_cons in E2.
    destruct (c2 =? ",")%char.
    + apply bind_fuelled; [apply IHm; lia | discriminate].
    + destruct (c2 =? "}")%char; discriminate.
Qed.

Theorem parse_fuel_suffices (s : string) : parse s <> OutOfFuel.
Proof.
  unfold parse. apply bind_fuelled.
  - apply (proj1 (parse_fuelled _)). lia.
  - intros [v r] _. cbn [fst snd]. destruct (skip_ws r); discriminate.
Qed.

End JSONFacts.

(** ** Notes in storage *)

Module StorageFacts.
Import JSON StringFacts JSONFacts App.

Lemma Category_of_to_string c : Category_of_string (Category_to_string c) = Some c.
Proof. destruct c; reflexivity. Qed.

Lemma note_of_to_json n : note_of_json (note_to_json n) = Some n.
Proof.
  destruct n as [i t c g u f]. cbn. rewrite Category_of_to_string. reflexivity.
Qed.

Lemma notes_of_to_json ns : notes_of_json (notes_to_json ns) = Some ns.
Proof.
  unfold notes_of_json, notes_to_json.
  induction ns as [|n ns IH]; [reflexivity|].
  cbn [map notes_of_list]. rewrite note_of_to_json, IH. reflexivity.
Qed.

Lemma wf_notes ns : wf (notes_to_json ns).
Proof.
  cbn [notes_to_json wf]. induction ns as [|n ns IH]; cbn [map fold_right]; [exact I|].
  split; [|exact IH]. cbn. split; [|tauto].
  repeat constructor; cbn; intuition discriminate.
Qed.

Lemma load_persist ns : load (persist ns) = Ok (notes_to_json ns).
Proof.
  unfold load, persist.
  change (JS.truthy (stringify (notes_to_json ns))) with true. cbv iota.
  apply parse_stringify, wf_notes.
Qed.

Lemma mount_persist ns :
  mount (persist ns)
  = Some (mkState ns EmptyString All None false false [] (persist ns)).
Proof. unfold mount. rewrite load_persist, notes_of_to_json. reflexivity. Qed.

End StorageFacts.

(** ** The query engine *)

Module QueryFacts.
Import App Spec.

Lemma prefix_iff (q s : string) : prefix q s = true <-> exists b, s = q ++ b.
Proof.
  revert s. induction q as [|a q IH]; intros s.
  - destruct s; simpl; split; eauto.
  - destruct s as [|c s]; simpl.
    + split; [discriminate | intros [b H]; discriminate].
    + destruct (ascii_dec a c) as [->|Hne].
      * rewrite IH. split; intros [b H]; exists b; [now rewrite H | now injection H].
      * split; [discriminate | intros [b H]; injection H; congruence].
Qed.

Lemma includes_iff (s q : string) :
  JS.includes s q = true <-> exists a b, s = a ++ q ++ b.
Proof.
  induction s as [|c s IH]; cbn [JS.includes]; rewrite orb_true_iff, prefix_iff.
  - split.
    + intros [[b H]|H]; [exists EmptyString, b; exact H | discriminate].
    + intros [a [b H]]. left. destruct a; [exists b; exact H | discriminate].
  - rewrite IH. split.
    + intros [[b H]|[a [b H]]]; [exists EmptyString, b; exact H|].
      exists (String c a), b. simpl. now rewrite H.
    + intros [a [b H]]. destruct a as [|c' a]; [left; exists b; exact H|].
      right. exists a, b. simpl in H. now injection H.
Qed.

Lemma includes_empty (s : string) : JS.includes s EmptyString = true.
Proof. destruct s; reflexivity. Qed.

Section Sort.

Context {A : Type} (cmp : A -> A -> Z).

Lemma insert_perm x l : Permutation (JSArray.insert cmp x l) (x :: l).
Proof.
  induction l as [|y l IH]; simpl; [reflexivity|].
  destruct (cmp x y <=? 0)%Z; [reflexivity|].
  rewrite IH. apply perm_swap.
Qed.

Lemma sort_perm l : Permutation (JSArray.sort cmp l) l.
Proof.
  induction l as [|x l IH]; simpl; [reflexivity|].
  rewrite insert_perm. now constructor.
Qed.

Context {B : Type} (cmp' : B -> B -> Z) (f : A -> B).
Hypothesis cmp_f : forall a b, cmp' (f a) (f b) = cmp a b.

Lemma insert_map x l :
  JSArray.insert cmp' (f x) (map f l) = map f (JSArray.insert cmp x l).
Proof.
  induction l as [|y l IH]; simpl; [reflexivity|].
  rewrite cmp_f. destruct (cmp x y <=? 0)%Z; simpl; [reflexivity | now rewrite IH].
Qed.

Lemma sort_map l : JSArray.sort cmp' (map f l) = map f (JSArray.sort cmp l).
Proof.
  induction l as [|x l IH]; simpl; [reflexivity|].
  rewrite IH. apply insert_map.
Qed.

End Sort.

Lemma insert_sorted x l :
  StronglySorted newer_first l ->
  StronglySorted newer_first (JSArray.insert byUpdatedAtDesc x l).
Proof.
  induction 1 as [|y l Hl IH Hy]; simpl.
  - repeat constructor.
  - unfold byUpdatedAtDesc at 1. destruct (Z.leb_spec (updatedAt y - updatedAt x) 0).
    + constructor; [now constructor|].
      constructor; [unfold newer_first; lia|].
      eapply Forall_impl; [|exact Hy]. unfold newer_first. intros; lia.
    + constructor; [exact IH|].
      eapply Permutation_Forall; [symmetry; apply insert_perm|].
      constructor; [unfold newer_first; lia | exact Hy].
Qed.

Lemma sort_sorted l : StronglySorted newer_first (JSArray.sort byUpdatedAtDesc l).
Proof.
  induction l as [|x l IH]; simpl; [constructor | now apply insert_sorted].
Qed.

Lemma sorted_nth (l : list Note) :
  StronglySorted newer_first l ->
  forall i j a b, (i < j)%nat -> nth_error l i = Some a -> nth_error l j = Some b ->
                  newer_first a b.
Proof.
  induction 1 as [|x l Hl IH Hx]; intros i j a b Hij Ha Hb.
  - destruct i; discriminate.
  - destruct j as [|j]; [lia|]. simpl in Hb.
    destruct i as [|i]; simpl in Ha.
    + injection Ha as <-. rewrite Forall_forall in Hx. apply Hx.
      eapply nth_error_In; eauto.
    + apply (IH i j); auto. lia.
Qed.

Lemma Category_eqb_eq a b : Category_eqb a b = true <-> a = b.
Proof. destruct a, b; simpl; split; congruence. Qed.

Lemma Category_eqb_sym a b : Category_eqb a b = Category_eqb b a.
Proof. destruct a, b; reflexivity. Qed.

(** The filter of the code is the filter of the specification: the code has
    no test for the empty search term, every text includes the empty one. *)
Lemma code_matches_spec q sel n :
  matchesSearch q n && matchesCategory sel n = spec_matches q sel n.
Proof.
  unfold matchesSearch, matchesCategory, spec_matches.
  rewrite andb_comm. f_equal.
  - destruct sel; [reflexivity | apply Category_eqb_sym].
  - destruct q as [|c q]; [|reflexivity].
    cbn [JS.toLowerCase is_empty orb]. now rewrite includes_empty.
Qed.

Lemma spec_matches_iff q sel n :
  spec_matches q sel n = true <->
  (sel = All \/ sel = Only (category n))
  /\ (q = EmptyString \/ ci_substring q (title n) \/ ci_substring q (content n)).
Proof.
  unfold spec_matches, ci_substring.
  rewrite andb_true_iff, !orb_true_iff, !includes_iff.
  assert (Hc : (match sel with All => true | Only c => Category_eqb c (category n) end)
               = true
               <-> sel = All \/ sel = Only (category n)).
  { destruct sel as [|c]; [intuition|].
    rewrite Category_eqb_eq. split.
    - intros ->. now right.
    - intros [H|H]; [discriminate | now injection H]. }
  assert (He : is_empty q = true <-> q = EmptyString)
    by (destruct q; simpl; intuition discriminate).
  rewrite Hc, He. tauto.
Qed.

Lemma filteredNotes_perm notes q sel :
  Permutation (filteredNotes notes q sel) (filter (spec_matches q sel) notes).
Proof.
  unfold filteredNotes. rewrite sort_perm.
  erewrite filter_ext; [reflexivity|]. intros n. apply code_matches_spec.
Qed.

Lemma filteredNotes_in notes q sel n : In n (filteredNotes notes q sel) -> In n notes.
Proof.
  intros H. apply (Permutation_in _ (filteredNotes_perm notes q sel)) in H.
  apply filter_In in H. tauto.
Qed.

Lemma toggle_keeps_query i q sel n :
  (matchesSearch q (if (id n =? i)%string then flip n else n)
   && matchesCategory sel (if (id n =? i)%string then flip n else n))
  = (matchesSearch q n && matchesCategory sel n).
Proof. destruct (id n =? i)%string; [|reflexivity]. destruct n, sel; reflexivity. Qed.

Lemma filter_map_commute {A} (p : A -> bool) (f : A -> A) (l : list A) :
  (forall x, p (f x) = p x) -> filter p (map f l) = map f (filter p l).
Proof.
  intros H. induction l as [|x l IH]; simpl; [reflexivity|].
  rewrite H. destruct (p x); simpl; now rewrite IH.
Qed.

(** Toggling commutes with the query: the cards stay where they are. *)
Lemma filteredNotes_toggle i prev q sel :
  filteredNotes (toggleFavorite i prev) q sel
  = toggleFavorite i (filteredNotes prev q sel).
Proof.
  unfold filteredNotes, toggleFavorite.
  rewrite (filter_map_commute _ _ _ (fun n => toggle_keeps_query i q sel n)).
  apply sort_map. intros a b. unfold byUpdatedAtDesc.
  destruct (id a =? i)%string, (id b =? i)%string; destruct a, b; reflexivity.
Qed.

End QueryFacts.

(** ** The updaters of the repository *)

Module RepositoryFacts.
Import App Spec.

Lemma find_some_id (i : string) (prev : list Note) :
  (exists m, In m prev /\ id m = i) ->
  exists m, find (fun n => (id n =? i)%string) prev = Some m.
Proof.
  intros [m [Hin Hid]]. destruct (find _ prev) as [m'|] eqn:E; [eauto|].
  exfalso. pose proof (find_none _ _ E m Hin) as H. cbn in H.
  rewrite Hid, String.eqb_refl in H. discriminate.
Qed.

Lemma find_none_id (i : string) (prev : list Note) :
  (forall m, In m prev -> id m <> i) ->
  find (fun n => (id n =? i)%string) prev = None.
Proof.
  intros H. destruct (find _ prev) as [m'|] eqn:E; [|reflexivity].
  apply find_some in E. destruct E as [Hin Hid].
  apply String.eqb_eq in Hid. exfalso. exact (H _ Hin Hid).
Qed.

Lemma toString_inj a b : JS.Number_toString a = JS.Number_toString b -> a = b.
Proof.
  unfold JS.Number_toString. intros H. apply DecimalZ.to_int_inj.
  assert (E : Some (Z.to_int a) = Some (Z.to_int b))
    by (rewrite <- !NilEmpty.isi, H; reflexivity).
  now injection E.
Qed.

Lemma saveNote_ids now e prev x :
  In x (map id (saveNote now e prev)) -> In x (map id prev) \/ x = id e.
Proof.
  unfold saveNote. destruct (find _ prev) as [m|].
  - rewrite map_map. intros H. apply in_map_iff in H. destruct H as [n [<- Hin]].
    destruct (id n =? id e)%string; [now right | left; now apply in_map].
  - rewrite map_app. intros H. apply in_app_or in H. destruct H as [H|[<-|[]]]; auto.
Qed.

Lemma saveNote_NoDup now e prev :
  NoDup (map id prev) -> NoDup (map id (saveNote now e prev)).
Proof.
  intros H. unfold saveNote. destruct (find _ prev) as [m|] eqn:E.
  - rewrite map_map. erewrite map_ext; [exact H|]. intros n. cbn.
    destruct (String.eqb_spec (id n) (id e)); [symmetry; assumption | reflexivity].
  - rewrite map_app. cbn. apply NoDup_app; [exact H | repeat constructor; intros [] |].
    intros x Hx [<-|[]]. apply in_map_iff in Hx. destruct Hx as [n [Hid Hin]].
    pose proof (find_none _ _ E n Hin) as Hn. cbn in Hn.
    rewrite Hid, String.eqb_refl in Hn. discriminate.
Qed.

Lemma deleteNote_ids i prev x : In x (map id (deleteNote i prev)) -> In x (map id prev).
Proof.
  intros H. apply in_map_iff in H. destruct H as [n [<- Hin]].
  apply filter_In in Hin. apply in_map. tauto.
Qed.

Lemma deleteNote_NoDup i prev :
  NoDup (map id prev) -> NoDup (map id (deleteNote i prev)).
Proof.
  induction prev as [|n prev IH]; simpl; [auto|].
  intros H. apply NoDup_cons_iff in H. destruct H as [Hn Hp].
  destruct (negb (id n =? i)%string); simpl; [|auto].
  constructor; [|auto]. intros Hin. apply Hn. eapply deleteNote_ids; eauto.
Qed.

Lemma toggleFavorite_ids i prev : map id (toggleFavorite i prev) = map id prev.
Proof.
  unfold toggleFavorite. rewrite map_map. apply map_ext. intros n.
  destruct (id n =? i)%string; reflexivity.
Qed.

Lemma title_or_suggested t (o : option string) :
  JS.maybe_or (JS.or_maybe t o) EmptyString
  = match t with
    | EmptyString => match o with Some u => u | None => EmptyString end
    | String _ _ => t
    end.
Proof. destruct t; [destruct o as [[|]|]|]; reflexivity. Qed.

Lemma Category_truthy g cat : Category_of_string g = Some cat -> JS.truthy g = true.
Proof. destruct g; [discriminate | reflexivity]. Qed.

(** On an answer of the declared type the updater is [applySuggestions]. *)
Lemma settle_typed j sg prev :
  AIResponse_of_json j = Some sg ->
  settleSuggestions j prev = Updated (applySuggestions sg prev).
Proof.
  destruct j as [| b | z | u | l | m]; try discriminate.
  destruct prev as [p|]; [|reflexivity].
  cbn [AIResponse_of_json settleSuggestions read applySuggestions].
  destruct (lookup "title" m) as [v1|]; [destruct v1 as [| | |t| |]|];
    try discriminate;
    (destruct (lookup "summary" m) as [v2|]; [destruct v2 as [| | |w| |]|];
     try discriminate);
    (destruct (lookup "suggestedCategory" m) as [v3|]; [destruct v3 as [| | |g| |]|];
     try discriminate).
  all: cbn.
  all: try (destruct (Category_of_string g) as [cat|] eqn:Eg; [|discriminate];
            cbn; rewrite (Category_truthy _ _ Eg)).
  all: intros [= <-]; cbn.
  all: destruct (title p) as [|a r]; cbn; try reflexivity.
  all: destruct t; reflexivity.
Qed.

(** The updater keeps the id of the draft, and makes no draft out of none. *)
Lemma settle_id j prev e :
  settleSuggestions j prev = Updated (Some e) ->
  exists p, prev = Some p /\ id e = id p.
Proof.
  destruct prev as [p|]; [|discriminate]. intros H. exists p. split; [reflexivity|].
  revert H. cbn [settleSuggestions].
  destruct (read j "title") as [t|]; [|discriminate].
  destruct (read j "suggestedCategory") as [g|]; [|discriminate].
  cbv zeta.
  repeat (match goal with
          | |- context [match ?x with _ => _ end] => destruct x
          end; try discriminate);
    intros [= <-]; reflexivity.
Qed.

(** The answer [{}] leaves the draft as it is. *)
Lemma settle_empty prev : settleSuggestions (JObj []) prev = Updated prev.
Proof. destruct prev as [[i t c g u f]|]; [|reflexivity]. destruct t; reflexivity. Qed.

End RepositoryFacts.

(** ** Invariants of the page *)

Module PageFacts.
Import App Spec StorageFacts QueryFacts RepositoryFacts.

Ltac on_modal H :=
  unfold editDraft, onModal in H;
  match type of H with
  | context [modal ?s] => destruct (modal s) eqn:?
  end.

Ltac on_card H :=
  unfold onCard in H;
  match type of H with
  | context [card ?s ?k] => destruct (card s k) eqn:?
  end.

Lemma modal_editing s e : modal s = Some e -> editingNote s = Some e.
Proof. unfold modal. destruct (isNoteModalOpen s); [auto | discriminate]. Qed.

Lemma card_in s k n : card s k = Some n -> In n (notes s).
Proof.
  unfold card. intros H. apply nth_error_In in H. eapply filteredNotes_in; eauto.
Qed.

(** *** The busy flag *)

Lemma mount_inFlight saved s :
  mount saved = Some s -> inFlight s = [] /\ isAILoading s = false.
Proof.
  unfold mount. destruct (load saved) as [j| | |]; try discriminate.
  destruct (notes_of_json j); try discriminate.
  intros [= <-]. split; reflexivity.
Qed.

Lemma mount_serialized saved s : mount saved = Some s -> serialized s.
Proof.
  intros H. apply mount_inFlight in H. destruct H as [H1 H2].
  unfold serialized. rewrite H1. split; [simpl; lia | congruence].
Qed.

Lemma handleAI_serialized s call :
  serialized s -> isAILoading s = false ->
  serialized (setInFlight (inFlight s ++ [call])%list (setIsAILoading true s)).
Proof.
  intros [Hl Hb] Hf. unfold serialized. cbn.
  destruct (inFlight s) as [|x l]; [split; [simpl; lia | reflexivity]|].
  rewrite Hb in Hf; [discriminate | discriminate].
Qed.

Lemma step_serialized s ev s' : serialized s -> step s ev = Some s' -> serialized s'.
Proof.
  intros Hs H. destruct ev; cbn [step] in H;
    try (injection H as <-; exact Hs);
    try (on_card H; injection H as <-; try exact Hs);
    try (on_modal H; injection H as <-; try exact Hs).
  - unfold handleDeleteNote. destruct confirmed; exact Hs.
  - destruct (aiButtonDisabled s n) eqn:Hd; [exact Hs|].
    unfold aiButtonDisabled in Hd. apply orb_false_elim in Hd. destruct Hd as [Hl _].
    unfold handleAISuggestions. destruct (editingNote s); [|exact Hs].
    destruct (negb _); [exact Hs|]. now apply handleAI_serialized.
  - destruct (aiButtonDisabled s n) eqn:Hd; [exact Hs|].
    unfold aiButtonDisabled in Hd. apply orb_false_elim in Hd. destruct Hd as [Hl _].
    unfold handleAIEnhance. destruct (editingNote s); [|exact Hs].
    destruct (negb _); [exact Hs|]. now apply handleAI_serialized.
  - destruct Hs as [Hl Hb]. destruct (inFlight s) as [|[c|c] rest] eqn:Hf;
      try (injection H as <-; unfold serialized; rewrite Hf; split; assumption).
    destruct (snd _); [|discriminate].
    destruct (settleSuggestions _ _) as [e'| |] eqn:Es; try discriminate.
    injection H as <-. unfold serialized. cbn.
    destruct rest; [split; [simpl; lia | congruence] | simpl in Hl; lia].
  - destruct Hs as [Hl Hb]. destruct (inFlight s) as [|[c|c] rest] eqn:Hf;
      try (injection H as <-; unfold serialized; rewrite Hf; split; assumption).
    injection H as <-. unfold serialized. cbn.
    destruct rest; [split; [simpl; lia | congruence] | simpl in Hl; lia].
  - eapply mount_serialized; eauto.
Qed.

Lemma run_serialized evs s s' : serialized s -> run s evs = Some s' -> serialized s'.
Proof.
  revert s. induction evs as [|ev evs IH]; intros s Hs H; simpl in H.
  - now injection H as <-.
  - destruct (step s ev) as [s1|] eqn:E; [|discriminate].
    eapply IH; [|exact H]. eapply step_serialized; eauto.
Qed.

(** *** The storage slot and the ids *)

Lemma setNotes_ok f s :
  NoDup (map id (f (notes s))) -> repository_ok (setNotes f s).
Proof. intros H. split; [reflexivity | exact H]. Qed.

Lemma step_repository_ok s ev s' :
  repository_ok s -> step s ev = Some s' -> repository_ok s'.
Proof.
  intros Hs H. pose proof Hs as [Hst Hnd]. destruct ev; cbn [step] in H;
    try (injection H as <-; exact Hs);
    try (on_card H; injection H as <-; try exact Hs);
    try (on_modal H; injection H as <-; try exact Hs).
  - apply setNotes_ok. now rewrite toggleFavorite_ids.
  - unfold handleDeleteNote. destruct confirmed; [|exact Hs].
    apply setNotes_ok. now apply deleteNote_NoDup.
  - destruct (aiButtonDisabled s n); [exact Hs|].
    unfold handleAISuggestions. destruct (editingNote s); [|exact Hs].
    destruct (negb _); exact Hs.
  - destruct (aiButtonDisabled s n); [exact Hs|].
    unfold handleAIEnhance. destruct (editingNote s); [|exact Hs].
    destruct (negb _); exact Hs.
  - split; [reflexivity|]. cbn. now apply saveNote_NoDup.
  - destruct (inFlight s) as [|[c|c] rest]; try (injection H as <-; exact Hs).
    destruct (snd _); [|discriminate].
    destruct (settleSuggestions _ _) as [e'| |] eqn:Es; try discriminate.
    injection H as <-. exact Hs.
  - destruct (inFlight s) as [|[c|c] rest]; injection H as <-; exact Hs.
  - rewrite Hst, mount_persist in H. injection H as <-. split; [reflexivity | exact Hnd].
Qed.

Lemma ids_from_more cs l s : ids_from cs s -> ids_from (cs ++ l)%list s.
Proof.
  intros [Hn He]. split.
  - intros n Hin. destruct (Hn n Hin) as [t [Ht Hid]]. exists t. split; [|exact Hid].
    apply in_or_app. now left.
  - intros e Hin. destruct (He e Hin) as [t [Ht Hid]]. exists t. split; [|exact Hid].
    apply in_or_app. now left.
Qed.

Lemma step_ids_from cs s ev s' :
  repository_ok s -> ids_from cs s -> step s ev = Some s' ->
  ids_from (cs ++ created_by ev)%list s'.
Proof.
  intros Hok Hs H. pose proof Hs as [Hn He].
  destruct ev; cbn [step created_by] in *;
    try (injection H as <-; apply ids_from_more; exact Hs);
    try (on_card H; injection H as <-; apply ids_from_more; try exact Hs);
    try (on_modal H; injection H as <-; apply ids_from_more; try exact Hs);
    try (split; [exact Hn|]; cbn; intros e' [= <-]; cbn;
         apply He; now apply modal_editing).
  - injection H as <-. split; cbn.
    + intros n Hin. destruct (Hn n Hin) as [t [Ht Hid]]. exists t.
      split; [apply in_or_app; now left | exact Hid].
    + intros e [= <-]. exists now_id. split; [apply in_or_app; right; now left|].
      reflexivity.
  - split; [exact Hn|]. cbn. intros e [= <-]. apply Hn. eapply card_in; eauto.
  - split; [|exact He]. cbn. intros m Hin.
    assert (Hi : In (id m) (map id (notes s)))
      by (rewrite <- (toggleFavorite_ids (id n)); now apply in_map).
    apply in_map_iff in Hi. destruct Hi as [m' [Hid Hm']]. rewrite <- Hid. now apply Hn.
  - unfold handleDeleteNote. destruct confirmed; [|exact Hs].
    split; [|exact He]. cbn. intros m Hin. apply Hn.
    apply filter_In in Hin. tauto.
  - destruct (aiButtonDisabled s n); [exact Hs|].
    unfold handleAISuggestions. destruct (editingNote s); [|exact Hs].
    destruct (negb _); exact Hs.
  - destruct (aiButtonDisabled s n); [exact Hs|].
    unfold handleAIEnhance. destruct (editingNote s); [|exact Hs].
    destruct (negb _); exact Hs.
  - split; cbn; [|discriminate]. intros m Hin.
    destruct (saveNote_ids _ _ _ _ (in_map id _ _ Hin)) as [Hi|Hi].
    + apply in_map_iff in Hi. destruct Hi as [m' [Hid Hm']]. rewrite <- Hid. now apply Hn.
    + rewrite Hi. apply He. now apply modal_editing.
  - destruct (inFlight s) as [|[c|c] rest];
      try (injection H as <-; apply ids_from_more; exact Hs).
    destruct (snd _); [|discriminate].
    destruct (settleSuggestions _ _) as [e'| |] eqn:Es; try discriminate.
    injection H as <-. apply ids_from_more. split; [exact Hn|]. cbn.
    intros e0 ->. destruct (settle_id _ _ _ Es) as [p [Hp Hid]].
    rewrite Hid. now apply He.
  - destruct (inFlight s) as [|[c|c] rest];
      try (injection H as <-; apply ids_from_more; exact Hs).
    injection H as <-. apply ids_from_more. split; [exact Hn|]. cbn.
    destruct (editingNote s) as [e|] eqn:Ee; cbn; [|discriminate].
    intros e' [= <-]. cbn. now apply He.
  - destruct Hok as [Hst _]. rewrite Hst, mount_persist in H. injection H as <-.
    apply ids_from_more. split; [exact Hn | discriminate].
Qed.

Lemma run_ids_from evs s cs s' :
  repository_ok s -> ids_from cs s -> run s evs = Some s' ->
  repository_ok s' /\ ids_from (cs ++ created evs)%list s'.
Proof.
  revert s cs. induction evs as [|ev evs IH]; intros s cs Hok Hs H; simpl in H.
  - injection H as <-. split; [exact Hok | now apply ids_from_more].
  - destruct (step s ev) as [s1|] eqn:E; [|discriminate].
    destruct (IH s1 (cs ++ created_by ev)%list) as [H1 H2];
      [eapply step_repository_ok; eauto | eapply step_ids_from; eauto | exact H |].
    split; [exact H1|]. cbn [created flat_map]. rewrite List.app_assoc. exact H2.
Qed.

Lemma fresh_ok : repository_ok fresh /\ ids_from [] fresh.
Proof.
  split; [split; [reflexivity | constructor]|].
  split; [intros n [] | discriminate].
Qed.

Lemma fresh_mounted : mount None = Some fresh.
Proof. reflexivity. Qed.

End PageFacts.

(** * The claims *)

Import JSON App Spec Samples.
Import StorageFacts QueryFacts RepositoryFacts PageFacts.

(** C1, as the specification has it, fails: a stored text that is not JSON
    makes the initialiser of [notes] throw, so the page does not mount
    instead of starting on the empty collection; a stored JSON value of
    another shape is returned as it is and is no note collection. *)
Lemma load_not_fail_open :
  load (Some "{") = SyntaxError
  /\ load (Some "{") <> Ok (JArr [])
  /\ mount (Some "{") = None
  /\ load (Some "42") = Ok (JNum 42)
  /\ notes_of_json (JNum 42) = None.
Proof. repeat split; try reflexivity. discriminate. Qed.

(** C1, amended.  Load yields the empty collection when the stored value is
    absent or the empty string, and the collection that was written when the
    stored value is one that the persistence effect wrote.  On any other text
    load is [JSON.parse], unguarded. *)
Theorem load_cases :
  load None = Ok (JArr [])
  /\ load (Some EmptyString) = Ok (JArr [])
  /\ (forall c s, load (Some (String c s)) = JSON.parse (String c s))
  /\ (forall ns, load (persist ns) = Ok (notes_to_json ns)
                 /\ option_map App.notes (mount (persist ns)) = Some ns).
Proof.
  split; [reflexivity|]. split; [reflexivity|]. split; [reflexivity|].
  intros ns. split; [apply load_persist | now rewrite mount_persist].
Qed.

(** C2.  While the busy flag is set, a click on Smart Suggest or on AI Enhance
    changes nothing: no call starts and the draft stays as it is.  In every
    state the page can reach, at most one AI call is pending, and the flag is
    set whenever one is. *)
Theorem one_ai_call_at_a_time (saved : Storage) (s0 : State) (evs : list Event)
    (s : State) :
  mount saved = Some s0 -> run s0 evs = Some s ->
  (List.length (inFlight s) <= 1)%nat
  /\ (inFlight s <> [] -> isAILoading s = true)
  /\ (isAILoading s = true ->
      step s ClickSmartSuggest = Some s /\ step s ClickAIEnhance = Some s).
Proof.
  intros Hm Hr.
  destruct (run_serialized evs s0 s (mount_serialized _ _ Hm) Hr) as [Hl Hb].
  split; [exact Hl|]. split; [exact Hb|].
  intros Hbusy. cbn [step]. unfold onModal, aiButtonDisabled. rewrite Hbusy.
  destruct (modal s); split; reflexivity.
Qed.

Lemma one_ai_call_at_a_time_witness :
  (List.length (inFlight busy) <= 1)%nat
  /\ step busy ClickSmartSuggest = Some busy
  /\ step busy ClickAIEnhance = Some busy.
Proof.
  pose proof (one_ai_call_at_a_time None fresh
                [ClickNewNote 1 1; ModalContent "buy milk and eggs today";
                 ClickSmartSuggest]
                busy eq_refl eq_refl) as [H1 [_ H3]].
  split; [exact H1|]. exact (H3 eq_refl).
Defined.

(** C3.  Saving note [n] at time [T]: when the collection has a note with the
    id of [n], every such note becomes [n] with [updatedAt] set to [T], the
    other notes stay, and the size is unchanged; when it has none, [n] with
    [updatedAt] set to [T] is appended and the size grows by one. *)
Theorem saveNote_upsert (prev : list Note) (n : Note) (T : Z) :
  ((exists m, In m prev /\ id m = id n) ->
     List.length (saveNote T n prev) = List.length prev
     /\ (forall k m, nth_error prev k = Some m -> id m = id n ->
                     nth_error (saveNote T n prev) k = Some (stamp T n))
     /\ (forall k m, nth_error prev k = Some m -> id m <> id n ->
                     nth_error (saveNote T n prev) k = Some m))
  /\ ((forall m, In m prev -> id m <> id n) ->
      saveNote T n prev = (prev ++ [stamp T n])%list
      /\ List.length (saveNote T n prev) = S (List.length prev))
  /\ stamp T n = mkNote (id n) (title n) (content n) (category n) T (isFavorite n).
Proof.
  split; [|split; [|reflexivity]].
  - intros Hex. apply find_some_id in Hex. destruct Hex as [m0 Hm0].
    unfold saveNote. rewrite Hm0. split; [apply length_map|].
    split; intros k m Hk Hid; rewrite nth_error_map, Hk; cbn.
    + apply String.eqb_eq in Hid. now rewrite Hid.
    + apply String.eqb_neq in Hid. now rewrite Hid.
  - intros Hno. unfold saveNote. rewrite (find_none_id _ _ Hno).
    split; [reflexivity|]. rewrite length_app. simpl. lia.
Qed.

Lemma saveNote_upsert_witness :
  (List.length (saveNote 200 groceries_edited [groceries]) = 1%nat
   /\ nth_error (saveNote 200 groceries_edited [groceries]) 0
      = Some (mkNote "1" "Groceries" "buy milk and eggs" Personal 200 false))
  /\ saveNote 200 meeting [groceries] = [groceries; stamp 200 meeting].
Proof.
  split.
  - assert (H : exists m, In m [groceries] /\ id m = id groceries_edited)
      by (exists groceries; split; [left|]; reflexivity).
    destruct (proj1 (saveNote_upsert [groceries] groceries_edited 200) H)
      as [Hl [Hk _]].
    split; [exact Hl|]. exact (Hk 0%nat groceries eq_refl eq_refl).
  - apply (proj1 (proj2 (saveNote_upsert [groceries] meeting 200))).
    intros m [<-|[]]. discriminate.
Defined.


(** C5.  The query engine's result is sorted by [updatedAt], newest first:
    of two results, the one that comes first is at least as recent. *)
Theorem filteredNotes_sorted (notes : list Note) (searchTerm : string)
    (categoryFilter : CategoryFilter) (i j : nat) (A B : Note) :
  (i < j)%nat ->
  nth_error (filteredNotes notes searchTerm categoryFilter) i = Some A ->
  nth_error (filteredNotes notes searchTerm categoryFilter) j = Some B ->
  (updatedAt A >= updatedAt B)%Z.
Proof.
  intros Hij HA HB.
  exact (sorted_nth _ (sort_sorted _) i j A B Hij HA HB).
Qed.

Lemma filteredNotes_sorted_witness :
  filteredNotes [groceries; idea; meeting] "budget" All = [meeting; idea]
  /\ (updatedAt meeting >= updatedAt idea)%Z.
Proof.
  split; [reflexivity|].
  apply (filteredNotes_sorted [groceries; idea; meeting] "budget" All 0 1 meeting idea);
    [lia | reflexivity | reflexivity].
Defined.

(** C6.  Whatever notes are saved into an empty repository, and in whatever
    order, writing the collection to the storage slot and loading it back
    gives the same collection, every field of every note included; the slot
    of every state the page reaches from an empty slot loads back to the
    collection of that state. *)
Theorem storage_roundtrip (saves : list (Note * Z)) (evs : list Event) :
  (let c := fold_left (fun c p => saveNote (snd p) (fst p) c) saves [] in
   load (persist c) = Ok (notes_to_json c)
   /\ notes_of_json (notes_to_json c) = Some c
   /\ option_map App.notes (mount (persist c)) = Some c)
  /\ match run fresh evs with
     | Some s =>
         localStorage s = persist (App.notes s)
         /\ option_map App.notes (mount (localStorage s)) = Some (App.notes s)
     | None => True
     end.
Proof.
  split.
  - cbv zeta. split; [apply load_persist|]. split; [apply notes_of_to_json|].
    now rewrite mount_persist.
  - destruct (run fresh evs) as [s|] eqn:E; [|exact I].
    destruct fresh_ok as [Hok Hids].
    destruct (run_ids_from evs fresh [] s Hok Hids E) as [[Hst _] _].
    split; [exact Hst|]. now rewrite Hst, mount_persist.
Qed.

(** C7.  The claim: when the suggestion request fails, the title and the
    category of the draft are exactly as they were before the call.  On the
    code: the answer [null] is JSON, so [getSmartSuggestions] catches nothing
    and resolves with [null]; the updater of [handleAISuggestions] then reads
    a property off [null] and throws, after the [try] block of the handler
    has been left, and the page goes down with the draft. *)
Theorem null_answer_loses_draft :
  JSON.parse "null" = Ok JNull
  /\ geminiService.getSmartSuggestions
       (fun _ => geminiService.Responds (Some "null")) (content draft)
     = ([geminiService.suggestPrompt (content draft)], Some JNull)
  /\ (forall p, settleSuggestions JNull (Some p) = Throws)
  /\ exists s1,
      step editing ClickSmartSuggest = Some s1
      /\ editingNote s1 = Some draft
      /\ step s1 (SuggestSettles (geminiService.Responds (Some "null"))) = None.
Proof.
  split; [reflexivity|]. split; [reflexivity|]. split; [reflexivity|].
  eexists. split; [reflexivity|]. split; reflexivity.
Qed.

(** C8.  On a content of fewer than ten code units, the empty one included,
    [getSmartSuggestions] sends nothing to the remote model and resolves with
    the empty result [{}]. *)
Theorem getSmartSuggestions_short (ai : string -> geminiService.Remote)
    (content : string) :
  (String.length content < 10)%nat ->
  geminiService.getSmartSuggestions ai content = ([], Some (JObj []))
  /\ AIResponse_of_json (JObj []) = Some AIResponse.empty.
Proof.
  intros H. split; [|reflexivity]. unfold geminiService.getSmartSuggestions.
  apply Nat.ltb_lt in H. rewrite H, orb_true_r. reflexivity.
Qed.

Lemma getSmartSuggestions_short_witness :
  geminiService.getSmartSuggestions
    (fun _ => geminiService.Responds (Some "{}")) "buy milk"
  = ([], Some (JObj []))
  /\ geminiService.getSmartSuggestions (fun _ => geminiService.Rejects) EmptyString
     = ([], Some (JObj [])).
Proof.
  split.
  - apply (getSmartSuggestions_short
             (fun _ => geminiService.Responds (Some "{}")) "buy milk").
    simpl. lia.
  - apply (getSmartSuggestions_short (fun _ => geminiService.Rejects) EmptyString).
    simpl. lia.
Defined.

(** C9, as the specification has it, fails: a note is created at clock
    reading 1000, saved and deleted; the clock is then read as 1000 again,
    and the new draft gets the id of the deleted note. *)
Lemma deleted_id_reused :
  exists s1 s2 s3,
    run fresh created_and_saved = Some s1
    /\ App.notes s1 = [saved_note]
    /\ run s1 then_deleted = Some s2
    /\ App.notes s2 = []
    /\ step s2 (ClickNewNote 1000 1002) = Some s3
    /\ editingNote s3 = Some (mkNote "1000" EmptyString EmptyString General 1002 false)
    /\ id saved_note = "1000".
Proof. do 3 eexists. repeat split; reflexivity. Qed.

(** C9, amended.  In every collection that the page reaches from an empty
    storage slot, reloads included, the ids are pairwise distinct.  The id of
    a new draft is the decimal rendering of the clock reading at its
    creation: when that reading is none of the readings that made an id
    before, the id differs from the id of every note that the collection
    ever held, deleted ones included. *)
Theorem ids_distinct_and_clock_fresh (evs : list Event) (s : State) :
  run fresh evs = Some s ->
  NoDup (map id (App.notes s))
  /\ (forall now_id now_updated s' e,
        ~ In now_id (created evs) ->
        step s (ClickNewNote now_id now_updated) = Some s' ->
        editingNote s' = Some e ->
        id e = JS.Number_toString now_id
        /\ forall evs1 evs2 s1 n,
            evs = (evs1 ++ evs2)%list -> run fresh evs1 = Some s1 ->
            In n (App.notes s1) ->
            id e <> id n).
Proof.
  intros Hrun. destruct fresh_ok as [Hok Hids].
  destruct (run_ids_from evs fresh [] s Hok Hids Hrun) as [[_ Hnd] _].
  split; [exact Hnd|].
  intros now_id now_updated s' e Hnew Hstep He.
  cbn [step] in Hstep. injection Hstep as <-. cbn in He. injection He as <-.
  split; [reflexivity|].
  intros evs1 evs2 s1 n -> Hrun1 Hin Heq.
  destruct (run_ids_from evs1 fresh [] s1 Hok Hids Hrun1) as [_ [Hn _]].
  destruct (Hn n Hin) as [t [Ht Hid]]. cbn in Heq. rewrite Hid in Heq.
  apply toString_inj in Heq. subst t. apply Hnew.
  unfold created. rewrite flat_map_app. apply in_or_app. left. exact Ht.
Qed.

Lemma ids_distinct_and_clock_fresh_witness :
  exists s,
    run fresh (created_and_saved ++ then_deleted) = Some s
    /\ NoDup (map id (App.notes s))
    /\ id (newDraft 2000 2000) <> id saved_note.
Proof.
  eexists. split; [reflexivity|].
  pose proof (ids_distinct_and_clock_fresh (created_and_saved ++ then_deleted) _ eq_refl)
    as [Hnd Hnew].
  split; [exact Hnd|].
  refine (proj2 (Hnew 2000%Z 2000%Z _ (newDraft 2000 2000) _ eq_refl eq_refl)
            created_and_saved then_deleted _ saved_note eq_refl eq_refl _).
  - cbn. intros [H|[]]. discriminate.
  - left. reflexivity.
Defined.

(** C10.  [toggleFavorite] flips [isFavorite] in the notes with the given id
    and changes nothing else: their other fields, [updatedAt] among them, and
    all other notes stay, so the cards of the query engine keep their places;
    with no note of that id the collection is unchanged, and the click raises
    no error. *)
Theorem toggleFavorite_frame (prev : list Note) (i : string) :
  List.length (toggleFavorite i prev) = List.length prev
  /\ (forall k n, nth_error prev k = Some n -> id n = i ->
        nth_error (toggleFavorite i prev) k
        = Some (mkNote (id n) (title n) (content n) (category n) (updatedAt n)
                       (negb (isFavorite n))))
  /\ (forall k n, nth_error prev k = Some n -> id n <> i ->
        nth_error (toggleFavorite i prev) k = Some n)
  /\ ((forall n, In n prev -> id n <> i) -> toggleFavorite i prev = prev)
  /\ (forall q sel,
        map updatedAt (filteredNotes (toggleFavorite i prev) q sel)
        = map updatedAt (filteredNotes prev q sel)
        /\ map id (filteredNotes (toggleFavorite i prev) q sel)
           = map id (filteredNotes prev q sel))
  /\ (forall s k, step s (ClickStar k) <> None).
Proof.
  split; [apply length_map|].
  split; [|split; [|split; [|split]]].
  - intros k n Hk Hid. unfold toggleFavorite. rewrite nth_error_map, Hk. cbn.
    apply String.eqb_eq in Hid. now rewrite Hid.
  - intros k n Hk Hid. unfold toggleFavorite. rewrite nth_error_map, Hk. cbn.
    apply String.eqb_neq in Hid. now rewrite Hid.
  - intros Hno. unfold toggleFavorite. rewrite <- (map_id prev) at 2.
    apply map_ext_in. intros n Hin. apply Hno in Hin.
    apply String.eqb_neq in Hin. now rewrite Hin.
  - intros q sel. rewrite filteredNotes_toggle. unfold toggleFavorite.
    rewrite !map_map. split; apply map_ext; intros n;
      destruct (id n =? i)%string; reflexivity.
  - intros s k. cbn [step]. unfold onCard. destruct (card s k); discriminate.
Qed.

Lemma toggleFavorite_frame_witness :
  toggleFavorite "missing-id" [groceries; meeting; idea] = [groceries; meeting; idea]
  /\ nth_error (toggleFavorite "2" [groceries; meeting; idea]) 1
     = Some (mkNote "2" "Budget meeting" "Quarterly BUDGET review" Work 300 false)
  /\ nth_error (toggleFavorite "2" [groceries; meeting; idea]) 0 = Some groceries.
Proof.
  pose proof (toggleFavorite_frame [groceries; meeting; idea] "missing-id")
    as [_ [_ [_ [H _]]]].
  pose proof (toggleFavorite_frame [groceries; meeting; idea] "2") as [_ [H1 [H2 _]]].
  split; [|split].
  - apply H. intros n [<-|[<-|[<-|[]]]]; discriminate.
  - exact (H1 1%nat meeting eq_refl eq_refl).
  - apply (H2 0%nat groceries eq_refl). discriminate.
Defined.

(** * Further properties of the code *)

Import Further geminiService.

(** ** Deleting, saving and toggling *)
Lemma deleteNote_absent i prev :
  (forall n, In n prev -> id n <> i) -> deleteNote i prev = prev.
Proof.
  intros H. unfold deleteNote. induction prev as [|n prev IH]; [reflexivity|].
  simpl. assert (Hn : id n <> i) by (apply H; now left).
  apply String.eqb_neq in Hn. rewrite Hn. simpl. f_equal. apply IH.
  intros m Hm. apply H. now right.
Qed.

Lemma deleteNote_length_present i prev :
  NoDup (map id prev) -> In i (map id prev) ->
  S (List.length (deleteNote i prev)) = List.length prev.
Proof.
  induction prev as [|n prev IH]; simpl; [intros _ []|].
  intros Hnd Hin. apply NoDup_cons_iff in Hnd. destruct Hnd as [Hn Hnd].
  destruct (String.eqb_spec (id n) i) as [E|E]; simpl.
  - rewrite deleteNote_absent; [reflexivity|].
    intros m Hm Hid. apply Hn. rewrite E, <- Hid. now apply in_map.
  - f_equal. apply IH; [exact Hnd|]. destruct Hin as [Hin|Hin]; [contradiction | exact Hin].
Qed.

(** X1.  Deleting by id removes exactly the notes with that id and keeps the
    others: deleting again, or deleting an id that no note has, changes
    nothing; with distinct ids and a note of that id the collection becomes
    one shorter; the notes of any other id stay as they were. *)
Theorem deleteNote_exact (prev : list Note) (i : string) :
  (forall n, In n (deleteNote i prev) <-> In n prev /\ id n <> i)
  /\ deleteNote i (deleteNote i prev) = deleteNote i prev
  /\ ((forall n, In n prev -> id n <> i) -> deleteNote i prev = prev)
  /\ (NoDup (map id prev) -> In i (map id prev) ->
      S (List.length (deleteNote i prev)) = List.length prev)
  /\ (forall j, j <> i ->
        filter (fun n => (id n =? j)%string) (deleteNote i prev)
        = filter (fun n => (id n =? j)%string) prev).
Proof.
  split; [|split; [|split; [|split]]].
  - intros n. unfold deleteNote. rewrite filter_In, negb_true_iff, String.eqb_neq. tauto.
  - apply deleteNote_absent. intros n Hn. unfold deleteNote in Hn.
    apply filter_In in Hn. destruct Hn as [_ Hn].
    apply negb_true_iff in Hn. now apply String.eqb_neq.
  - apply deleteNote_absent.
  - apply deleteNote_length_present.
  - intros j Hj. unfold deleteNote. induction prev as [|n prev IH]; [reflexivity|].
    simpl. destruct (String.eqb_spec (id n) i) as [E|E]; simpl.
    + destruct (String.eqb_spec (id n) j) as [E'|E']; [congruence | exact IH].
    + destruct (id n =? j)%string; [f_equal|]; exact IH.
Qed.

Lemma deleteNote_exact_witness :
  deleteNote "missing-id" [groceries; meeting; idea] = [groceries; meeting; idea]
  /\ S (List.length (deleteNote "2" [groceries; meeting; idea])) = 3%nat.
Proof.
  pose proof (deleteNote_exact [groceries; meeting; idea] "missing-id") as [_ [_ [H _]]].
  pose proof (deleteNote_exact [groceries; meeting; idea] "2") as [_ [_ [_ [H2 _]]]].
  split.
  - apply H. intros n [<-|[<-|[<-|[]]]]; discriminate.
  - apply H2.
    + repeat constructor; simpl; intuition discriminate.
    + right; left; reflexivity.
Defined.

Lemma find_map_same {A} (p : A -> bool) (f : A -> A) (l : list A) :
  (forall x, p (f x) = p x) -> find p (map f l) = option_map f (find p l).
Proof.
  intros H. induction l as [|x l IH]; [reflexivity|].
  simpl. rewrite H. destruct (p x); [reflexivity | exact IH].
Qed.

Lemma find_app_none {A} (p : A -> bool) (l l' : list A) :
  find p l = None -> find p (l ++ l')%list = find p l'.
Proof.
  induction l as [|x l IH]; [reflexivity|]. simpl.
  destruct (p x); [discriminate | exact IH].
Qed.


Lemma replace_by_id T n m : id (replace_by T n m) = id m.
Proof.
  unfold replace_by. destruct (String.eqb_spec (id m) (id n)) as [E|E]; [|reflexivity].
  now rewrite E.
Qed.

Lemma saveNote_found T n prev m :
  find (fun x => (id x =? id n)%string) prev = Some m ->
  saveNote T n prev = map (replace_by T n) prev.
Proof. intros H. unfold saveNote. now rewrite H. Qed.

Lemma saveNote_new T n prev :
  find (fun x => (id x =? id n)%string) prev = None ->
  saveNote T n prev = (prev ++ [stamp T n])%list.
Proof. intros H. unfold saveNote. now rewrite H. Qed.

Lemma saveNote_find T n prev :
  find (fun m => (id m =? id n)%string) (saveNote T n prev) = Some (stamp T n).
Proof.
  destruct (find (fun x => (id x =? id n)%string) prev) as [m|] eqn:E.
  - rewrite (saveNote_found _ _ _ _ E).
    rewrite find_map_same by (intros x; now rewrite replace_by_id).
    rewrite E. cbn. apply find_some in E. destruct E as [_ E].
    unfold replace_by. now rewrite E.
  - rewrite (saveNote_new _ _ _ E), (find_app_none _ _ _ E). cbn.
    now rewrite String.eqb_refl.
Qed.

(** X2.  After a save, looking the note up by its id finds the saved note
    with the new time stamp; deleting that id afterwards leaves what deleting
    it before the save would have left; saving the same note at the same time
    once more changes nothing. *)
Theorem saveNote_then_find (prev : list Note) (n : Note) (T : Z) :
  find (fun m => (id m =? id n)%string) (saveNote T n prev) = Some (stamp T n)
  /\ deleteNote (id n) (saveNote T n prev) = deleteNote (id n) prev
  /\ saveNote T n (saveNote T n prev) = saveNote T n prev.
Proof.
  pose proof (saveNote_find T n prev) as F.
  split; [exact F|]. split.
  - destruct (find (fun x => (id x =? id n)%string) prev) as [m|] eqn:E.
    + rewrite (saveNote_found _ _ _ _ E). unfold deleteNote. clear E F m.
      induction prev as [|x prev IH]; [reflexivity|]. simpl.
      rewrite replace_by_id. unfold replace_by at 1.
      destruct (id x =? id n)%string; simpl; [exact IH | now rewrite IH].
    + rewrite (saveNote_new _ _ _ E). unfold deleteNote. rewrite filter_app. cbn.
      rewrite String.eqb_refl. cbn. apply List.app_nil_r.
  - rewrite (saveNote_found T n (saveNote T n prev) _ F).
    destruct (find (fun x => (id x =? id n)%string) prev) as [m|] eqn:E.
    + rewrite (saveNote_found _ _ _ _ E). rewrite map_map. apply map_ext.
      intros x. unfold replace_by.
      destruct (String.eqb_spec (id x) (id n)) as [Ex|Ex].
      * cbn. now rewrite String.eqb_refl.
      * apply String.eqb_neq in Ex. now rewrite Ex.
    + rewrite (saveNote_new _ _ _ E). rewrite map_app. cbn.
      unfold replace_by at 2. cbn. rewrite String.eqb_refl. f_equal.
      rewrite <- (map_id prev) at 2. apply map_ext_in. intros x Hx.
      pose proof (find_none _ _ E x Hx) as Hn. cbn in Hn.
      unfold replace_by. now rewrite Hn.
Qed.

Lemma flip_flip n : flip (flip n) = n.
Proof. destruct n as [i t c g u f]. unfold flip. cbn. now rewrite negb_involutive. Qed.

Lemma count_favorites_toggle i prev :
  NoDup (map id prev) -> forall n, In n prev -> id n = i ->
  List.length (filter isFavorite (toggleFavorite i prev)) +
    (if isFavorite n then 1 else 0)
  = List.length (filter isFavorite prev) + (if isFavorite n then 0 else 1).
Proof.
  induction prev as [|m prev IH]; [intros _ n []|].
  intros Hnd n Hin Hid. cbn [map] in Hnd. apply NoDup_cons_iff in Hnd.
  destruct Hnd as [Hm Hnd]. cbn [toggleFavorite map filter].
  destruct Hin as [->|Hin].
  - rewrite Hid, String.eqb_refl.
    assert (Hrest : map (fun n0 => if (id n0 =? i)%string then flip n0 else n0) prev = prev).
    { rewrite <- (map_id prev) at 2. apply map_ext_in. intros x Hx.
      destruct (String.eqb_spec (id x) i) as [E|E]; [|reflexivity].
      exfalso. apply Hm. rewrite Hid, <- E. now apply in_map. }
    rewrite Hrest. destruct n as [a b c d e f]; cbn. destruct f; cbn; lia.
  - assert (Hmi : id m <> i).
    { intros E. apply Hm. rewrite E, <- Hid. now apply in_map. }
    apply String.eqb_neq in Hmi. rewrite Hmi.
    specialize (IH Hnd n Hin Hid). unfold toggleFavorite in IH.
    destruct (isFavorite m); cbn [List.length]; lia.
Qed.

(** X3.  Toggling the same id twice gives the collection back.  A toggle
    changes neither the total nor the number on any category; with distinct
    ids it moves the favourites counter by exactly one, up when the note was
    no favourite and down when it was. *)
Theorem toggleFavorite_twice_and_counts (prev : list Note) (i : string) :
  toggleFavorite i (toggleFavorite i prev) = prev
  /\ total (stats (toggleFavorite i prev)) = total (stats prev)
  /\ (forall c, badge (stats (toggleFavorite i prev)) c = badge (stats prev) c)
  /\ (NoDup (map id prev) -> forall n, In n prev -> id n = i ->
      favorites (stats (toggleFavorite i prev)) + (if isFavorite n then 1 else 0)
      = favorites (stats prev) + (if isFavorite n then 0 else 1)).
Proof.
  split; [|split; [|split]].
  - unfold toggleFavorite. rewrite map_map. rewrite <- (map_id prev) at 2.
    apply map_ext. intros n. destruct (String.eqb_spec (id n) i) as [E|E].
    + cbn. rewrite E, String.eqb_refl. apply flip_flip.
    + apply String.eqb_neq in E. now rewrite E.
  - cbn. apply length_map.
  - intros c. unfold toggleFavorite.
    assert (H : forall cat,
               filter (fun n => Category_eqb (category n) cat)
                      (map (fun n => if (id n =? i)%string then flip n else n) prev)
               = map (fun n => if (id n =? i)%string then flip n else n)
                     (filter (fun n => Category_eqb (category n) cat) prev)).
    { intros cat. apply filter_map_commute. intros x.
      destruct (id x =? i)%string; reflexivity. }
    destruct c; cbn; rewrite !H, !length_map; reflexivity.
  - intros Hnd n Hin Hid. cbn [stats favorites]. now apply count_favorites_toggle.
Qed.

Lemma toggleFavorite_twice_and_counts_witness :
  favorites (stats (toggleFavorite "1" [groceries; meeting; idea])) + 0
  = favorites (stats [groceries; meeting; idea]) + 1.
Proof.
  apply (proj2 (proj2 (proj2
           (toggleFavorite_twice_and_counts [groceries; meeting; idea] "1")))
           ltac:(repeat constructor; simpl; intuition discriminate)
           groceries ltac:(left; reflexivity) eq_refl).
Defined.





(** ** More on the query engine *)

Lemma insert_ties t x l :
  filter (updated_at t) (JSArray.insert byUpdatedAtDesc x l)
  = filter (updated_at t) (x :: l).
Proof.
  induction l as [|y l IH]; [reflexivity|].
  cbn [JSArray.insert]. unfold byUpdatedAtDesc at 1.
  destruct (Z.leb_spec (updatedAt y - updatedAt x) 0); [reflexivity|].
  cbn [filter]. rewrite IH. cbn [filter]. unfold updated_at.
  destruct (Z.eqb_spec (updatedAt y) t), (Z.eqb_spec (updatedAt x) t); try reflexivity.
  lia.
Qed.

Lemma sort_ties t l :
  filter (updated_at t) (JSArray.sort byUpdatedAtDesc l) = filter (updated_at t) l.
Proof.
  induction l as [|x l IH]; [reflexivity|].
  cbn [JSArray.sort fold_right]. rewrite insert_ties. cbn [filter].
  fold (JSArray.sort byUpdatedAtDesc l). now rewrite IH.
Qed.

(** X5.  Among the results, the notes that share a time stamp come in the
    order in which the collection has them: the sort only moves notes past
    strictly older ones. *)
Theorem filteredNotes_ties_keep_order (notes : list Note) (q : string)
    (sel : CategoryFilter) (t : Z) :
  filter (updated_at t) (filteredNotes notes q sel)
  = filter (fun n => updated_at t n && (matchesSearch q n && matchesCategory sel n)) notes.
Proof.
  unfold filteredNotes. rewrite sort_ties.
  induction notes as [|n notes IH]; [reflexivity|]. cbn [filter].
  destruct (matchesSearch q n && matchesCategory sel n); cbn [filter];
    rewrite IH; [|now rewrite andb_false_r].
  now rewrite andb_true_r.
Qed.

Lemma toLowerCase_app a b :
  JS.toLowerCase (a ++ b) = JS.toLowerCase a ++ JS.toLowerCase b.
Proof. induction a as [|c a IH]; simpl; [reflexivity | now rewrite IH]. Qed.

(** X6.  For titles, contents and search terms in Latin-1 (the strings of
    this model, on which lower-casing works letter by letter): a note of the
    collection is found by any fragment of its title or of its content,
    typed in any letter case, under "All Notes" and under its own
    category. *)
Theorem found_by_fragment (notes : list Note) (n : Note) (q : string)
    (sel : CategoryFilter) (a f b : string) :
  In n notes ->
  sel = All \/ sel = Only (category n) ->
  title n = a ++ f ++ b \/ content n = a ++ f ++ b ->
  JS.toLowerCase q = JS.toLowerCase f ->
  In n (filteredNotes notes q sel).
Proof.
  intros Hin Hsel Hfrag Hq.
  apply (Permutation_in _ (Permutation_sym (filteredNotes_perm notes q sel))).
  apply filter_In. split; [exact Hin|]. apply spec_matches_iff. split; [exact Hsel|].
  right. unfold ci_substring. rewrite Hq.
  destruct Hfrag as [H|H]; [left | right]; rewrite H, !toLowerCase_app; eauto.
Qed.

Lemma found_by_fragment_witness :
  In meeting (filteredNotes [groceries; meeting; idea] "BUDGET" (Only Work)).
Proof.
  apply (found_by_fragment [groceries; meeting; idea] meeting "BUDGET" (Only Work)
           EmptyString "Budget" " meeting").
  - right; left; reflexivity.
  - right; reflexivity.
  - left; reflexivity.
  - reflexivity.
Defined.

Lemma saveNote_elements T n prev m :
  In m (saveNote T n prev) ->
  m = stamp T n \/ (In m prev /\ id m <> id n).
Proof.
  unfold saveNote. destruct (find _ prev) as [x|] eqn:E.
  - intros H. apply in_map_iff in H. destruct H as [y [<- Hy]].
    destruct (String.eqb_spec (id y) (id n)); [now left | right; tauto].
  - intros H. apply in_app_or in H. destruct H as [H|[<-|[]]]; [|now left].
    right. split; [exact H|]. pose proof (find_none _ _ E m H) as Hn. cbn in Hn.
    now apply String.eqb_neq.
Qed.

(** X7.  When a note is saved at a time later than the time stamp of every
    other note, it is the first card of every view whose filter it passes. *)
Theorem saved_note_listed_first (prev : list Note) (n : Note) (T : Z) (q : string)
    (sel : CategoryFilter) :
  (forall m, In m prev -> id m <> id n -> (updatedAt m < T)%Z) ->
  matchesSearch q (stamp T n) && matchesCategory sel (stamp T n) = true ->
  nth_error (filteredNotes (saveNote T n prev) q sel) 0 = Some (stamp T n).
Proof.
  intros Hold Hmatch.
  assert (Hin : In (stamp T n) (saveNote T n prev)).
  { pose proof (saveNote_find T n prev) as F. apply find_some in F. tauto. }
  assert (HinR : In (stamp T n) (filteredNotes (saveNote T n prev) q sel)).
  { unfold filteredNotes.
    apply (Permutation_in _ (Permutation_sym (sort_perm _ _))).
    apply filter_In. split; [exact Hin | exact Hmatch]. }
  apply In_nth_error in HinR. destruct HinR as [k Hk].
  destruct k as [|k]; [exact Hk|].
  destruct (nth_error (filteredNotes (saveNote T n prev) q sel) 0) as [h|] eqn:Eh.
  - pose proof (sorted_nth _ (sort_sorted _) 0 (S k) h (stamp T n)
                  ltac:(lia) Eh Hk) as Hsorted.
    unfold newer_first in Hsorted. cbn in Hsorted.
    apply nth_error_In in Eh. apply filteredNotes_in in Eh.
    apply saveNote_elements in Eh. destruct Eh as [->|[Hp Hid]]; [reflexivity|].
    specialize (Hold h Hp Hid). lia.
  - apply nth_error_None in Eh.
    assert (S k < List.length (filteredNotes (saveNote T n prev) q sel))%nat
      by (apply nth_error_Some; congruence).
    lia.
Qed.

Lemma saved_note_listed_first_witness :
  nth_error (filteredNotes (saveNote 400 groceries_edited [groceries; meeting; idea])
                           "milk" All) 0
  = Some (mkNote "1" "Groceries" "buy milk and eggs" Personal 400 false).
Proof.
  apply (saved_note_listed_first [groceries; meeting; idea] groceries_edited 400
           "milk" All).
  - intros m [<-|[<-|[<-|[]]]] H; cbn; lia.
  - reflexivity.
Defined.

(** ** What touches the repository *)

Lemma mount_written saved s : mount saved = Some s -> written s.
Proof.
  unfold mount. destruct (load saved) as [j| | |]; try discriminate.
  destruct (notes_of_json j); try discriminate.
  intros [= <-]. reflexivity.
Qed.

Lemma step_written s ev s' : written s -> step s ev = Some s' -> written s'.
Proof.
  intros Hs H. destruct ev; cbn [step] in H;
    try (injection H as <-; exact Hs);
    try (on_card H; injection H as <-; try exact Hs; try reflexivity);
    try (on_modal H; injection H as <-; try exact Hs; try reflexivity).
  - unfold handleDeleteNote. destruct confirmed; [reflexivity | exact Hs].
  - destruct (aiButtonDisabled s n); [exact Hs|].
    unfold handleAISuggestions. destruct (editingNote s); [|exact Hs].
    destruct (negb _); exact Hs.
  - destruct (aiButtonDisabled s n); [exact Hs|].
    unfold handleAIEnhance. destruct (editingNote s); [|exact Hs].
    destruct (negb _); exact Hs.
  - destruct (inFlight s) as [|[c|c] rest]; try (injection H as <-; exact Hs).
    destruct (snd _); [|discriminate].
    destruct (settleSuggestions _ _) as [e'| |] eqn:Es; try discriminate.
    injection H as <-. exact Hs.
  - destruct (inFlight s) as [|[c|c] rest]; injection H as <-; exact Hs.
  - eapply mount_written; eauto.
Qed.

Lemma run_written evs s s' : written s -> run s evs = Some s' -> written s'.
Proof.
  revert s. induction evs as [|ev evs IH]; intros s Hs H; simpl in H.
  - now injection H as <-.
  - destruct (step s ev) as [s1|] eqn:E; [|discriminate].
    eapply IH; [|exact H]. eapply step_written; eauto.
Qed.

Lemma step_untouched s ev s' :
  written s -> touches_repository ev = false -> step s ev = Some s' ->
  notes s' = notes s /\ localStorage s' = localStorage s.
Proof.
  intros Hw Hev H.
  destruct ev; try discriminate Hev; cbn [step] in H;
    try (injection H as <-; split; reflexivity);
    try (on_card H; injection H as <-; split; reflexivity);
    try (on_modal H; injection H as <-; try (split; reflexivity)).
  - destruct confirmed; [discriminate Hev|].
    on_card H; injection H as <-; split; reflexivity.
  - destruct (aiButtonDisabled s n); [split; reflexivity|].
    unfold handleAISuggestions. destruct (editingNote s); [|split; reflexivity].
    destruct (negb _); split; reflexivity.
  - destruct (aiButtonDisabled s n); [split; reflexivity|].
    unfold handleAIEnhance. destruct (editingNote s); [|split; reflexivity].
    destruct (negb _); split; reflexivity.
  - destruct (inFlight s) as [|[c|c] rest]; try (injection H as <-; split; reflexivity).
    destruct (snd _); [|discriminate].
    destruct (settleSuggestions _ _) as [e'| |] eqn:Es; try discriminate.
    injection H as <-. split; reflexivity.
  - destruct (inFlight s) as [|[c|c] rest]; injection H as <-; split; reflexivity.
  - rewrite Hw, mount_persist in H. injection H as <-. split; [reflexivity|].
    cbn. now rewrite Hw.
Qed.

(** X8.  In every state the page reaches, the storage slot holds the
    collection; and only a save, a click on a star and a confirmed delete
    change either of them: opening, typing in and closing the editor, the AI
    requests and their answers, searching, filtering, a declined delete and a
    restart leave both as they are. *)
Theorem repository_changes_only_on_save_star_trash
    (saved : Storage) (s0 : State) (evs : list Event) (s : State) (ev : Event)
    (s' : State) :
  mount saved = Some s0 -> run s0 evs = Some s ->
  touches_repository ev = false -> step s ev = Some s' ->
  notes s' = notes s /\ localStorage s' = localStorage s
  /\ localStorage s = persist (notes s).
Proof.
  intros Hm Hr Hev H.
  pose proof (run_written evs s0 s (mount_written _ _ Hm) Hr) as Hw.
  destruct (step_untouched s ev s' Hw Hev H) as [H1 H2].
  split; [exact H1|]. split; [exact H2 | exact Hw].
Qed.

Lemma repository_changes_only_on_save_star_trash_witness :
  exists s', step busy (SuggestSettles Rejects) = Some s'
             /\ notes s' = notes busy /\ localStorage s' = localStorage busy.
Proof.
  eexists. split; [reflexivity|].
  destruct (repository_changes_only_on_save_star_trash None fresh
              [ClickNewNote 1 1; ModalContent "buy milk and eggs today";
               ClickSmartSuggest]
              busy (SuggestSettles Rejects) _
              eq_refl eq_refl eq_refl eq_refl) as [H1 [H2 _]].
  split; assumption.
Defined.

(** ** The editor, from opening to saving *)

(** X9.  Opening a card, typing a title and a content and saving puts the
    typed title and content and the time of the save in the notes with the
    id of that card, keeps every other note and the size of the collection,
    writes the collection to the storage slot, and closes the editor with no
    draft left. *)
Theorem edit_flow (s : State) (k : nat) (n : Note) (t c : string) (now : Z) :
  card s k = Some n ->
  exists s',
    run s [ClickCard k; ModalTitle t; ModalContent c; ClickSave now] = Some s'
    /\ notes s' = map (fun m => if (id m =? id n)%string then edited n t c now else m)
                      (notes s)
    /\ List.length (notes s') = List.length (notes s)
    /\ localStorage s' = persist (notes s')
    /\ editingNote s' = None /\ isNoteModalOpen s' = false.
Proof.
  intros Hc. pose proof (card_in _ _ _ Hc) as Hin.
  assert (Hf : exists m, find (fun x => (id x =? id n)%string) (notes s) = Some m).
  { apply find_some_id. eauto. }
  destruct Hf as [m Hf].
  eexists. split.
  - cbn [run step]. unfold onCard. rewrite Hc. cbn. reflexivity.
  - cbn. unfold saveNote. cbn. rewrite Hf.
    split; [reflexivity|]. split; [apply length_map|]. repeat split.
Qed.

Lemma edit_flow_witness :
  exists s',
    run (mkState [groceries; meeting] EmptyString All None false false []
                 (persist [groceries; meeting]))
        [ClickCard 1; ModalTitle "Groceries"; ModalContent "buy milk and eggs";
         ClickSave 400] = Some s'
    /\ notes s' = [mkNote "1" "Groceries" "buy milk and eggs" Personal 400 false; meeting].
Proof.
  destruct (edit_flow (mkState [groceries; meeting] EmptyString All None false false []
                               (persist [groceries; meeting]))
              1 groceries "Groceries" "buy milk and eggs" 400 eq_refl)
    as [s' [H1 [H2 _]]].
  exists s'. split; [exact H1 | exact H2].
Defined.


(** X10.  Creating a note, typing and saving appends the note when no note
    has the id of the draft.  When a note already has that id, the draft
    having been created at a clock reading that made an id before, the save
    overwrites that note and the collection does not grow. *)
Theorem create_flow (s : State) (now_id now_updated : Z) (t c : string) (now : Z) :
  exists s',
    run s [ClickNewNote now_id now_updated; ModalTitle t; ModalContent c; ClickSave now]
    = Some s'
    /\ ((forall m, In m (notes s) -> id m <> JS.Number_toString now_id) ->
        notes s' = (notes s ++ [created_note now_id t c now])%list)
    /\ ((exists m, In m (notes s) /\ id m = JS.Number_toString now_id) ->
        notes s' = map (fun m => if (id m =? JS.Number_toString now_id)%string
                                 then created_note now_id t c now else m) (notes s)
        /\ List.length (notes s') = List.length (notes s)).
Proof.
  eexists. split; [reflexivity|]. split.
  - intros Hno. cbn. unfold saveNote. cbn. now rewrite (find_none_id _ _ Hno).
  - intros Hex. apply find_some_id in Hex. destruct Hex as [m Hm].
    cbn. unfold saveNote. cbn. rewrite Hm. split; [reflexivity | apply length_map].
Qed.

Lemma create_flow_witness :
  exists s',
    run (mkState [saved_note] EmptyString All None false false [] (persist [saved_note]))
        [ClickNewNote 1000 1002; ModalTitle "Other"; ModalContent "text"; ClickSave 1003]
    = Some s'
    /\ notes s' = [mkNote "1000" "Other" "text" General 1003 false]
    /\ exists s2,
        run fresh [ClickNewNote 1000 1002; ModalTitle "Other"; ModalContent "text";
                   ClickSave 1003] = Some s2
        /\ notes s2 = [mkNote "1000" "Other" "text" General 1003 false].
Proof.
  destruct (create_flow
              (mkState [saved_note] EmptyString All None false false []
                       (persist [saved_note]))
              1000 1002 "Other" "text" 1003) as [s' [H1 [_ H3]]].
  destruct (create_flow fresh 1000 1002 "Other" "text" 1003) as [s2 [H4 [H5 _]]].
  exists s'. split; [exact H1|]. split.
  - apply H3. exists saved_note. split; [left|]; reflexivity.
  - exists s2. split; [exact H4|]. apply H5. intros m [].
Defined.


(** ** The AI assist client *)

(** X11.  [getSmartSuggestions] sends at most one prompt, and only for a
    content of ten code units or more, for which it sends exactly one.  It
    resolves with [{}] unless the remote model answered with a non-empty text
    that is JSON, in which case it resolves with the parsed value; a
    rejection, a missing text, an empty text and a text that is no JSON all
    give [{}]. *)
Theorem getSmartSuggestions_fail_soft (ai : string -> Remote) (content : string) :
  (List.length (fst (geminiService.getSmartSuggestions ai content)) <= 1)%nat
  /\ (forall p, In p (fst (geminiService.getSmartSuggestions ai content)) ->
                p = suggestPrompt content /\ (10 <= String.length content)%nat)
  /\ (forall j, snd (geminiService.getSmartSuggestions ai content) = Some j ->
        j = JObj []
        \/ exists c text, ai (suggestPrompt content) = Responds (Some (String c text))
                          /\ JSON.parse (String c text) = Ok j)
  /\ (ai (suggestPrompt content) = Rejects
      \/ ai (suggestPrompt content) = Responds None
      \/ ai (suggestPrompt content) = Responds (Some EmptyString) ->
      snd (geminiService.getSmartSuggestions ai content) = Some (JObj []))
  /\ ((10 <= String.length content)%nat ->
      fst (geminiService.getSmartSuggestions ai content) = [suggestPrompt content]
      /\ (forall c text j,
            ai (suggestPrompt content) = Responds (Some (String c text)) ->
            JSON.parse (String c text) = Ok j ->
            snd (geminiService.getSmartSuggestions ai content) = Some j)
      /\ (forall c text,
            ai (suggestPrompt content) = Responds (Some (String c text)) ->
            JSON.parse (String c text) = SyntaxError ->
            snd (geminiService.getSmartSuggestions ai content) = Some (JObj []))).
Proof.
  unfold geminiService.getSmartSuggestions.
  destruct (negb (JS.truthy content)) eqn:Et; cbn [orb].
  { cbn [fst snd]. split; [simpl; lia|]. split; [intros p []|].
    split; [intros j [= <-]; now left|]. split; [reflexivity|].
    intros Hlen. destruct content; [simpl in Hlen; lia | discriminate Et]. }
  destruct (String.length content <? 10)%nat eqn:El.
  { cbn [fst snd]. split; [simpl; lia|]. split; [intros p []|].
    split; [intros j [= <-]; now left|]. split; [reflexivity|].
    intros Hlen. apply Nat.ltb_lt in El. lia. }
  apply Nat.ltb_ge in El. cbn [fst snd].
  split; [simpl; lia|]. split; [intros p [<-|[]]; split; [reflexivity | exact El]|].
  split; [|split].
  - intros j. destruct (ai (suggestPrompt content)) as [[[|c text]|]|];
      try (cbn; intros [= <-]; now left).
    cbn. destruct (JSON.parse (String c text)) as [v| | |] eqn:Ep; try discriminate.
    + intros [= <-]. right. eauto.
    + intros [= <-]. now left.
  - intros [H|[H|H]]; rewrite H; reflexivity.
  - intros _. split; [reflexivity|]. split.
    + intros c text j Ha Hp. rewrite Ha. cbn. now rewrite Hp.
    + intros c text Ha Hp. rewrite Ha. cbn. now rewrite Hp.
Qed.

Lemma getSmartSuggestions_fail_soft_witness :
  snd (geminiService.getSmartSuggestions (fun _ => Responds None) "buy milk and eggs today")
  = Some (JObj [])
  /\ geminiService.getSmartSuggestions (fun _ => Responds (Some answer_text))
       "buy milk and eggs today"
     = ([suggestPrompt "buy milk and eggs today"], Some answer).
Proof.
  split.
  - apply (getSmartSuggestions_fail_soft (fun _ => Responds None)
             "buy milk and eggs today").
    right; left; reflexivity.
  - destruct (getSmartSuggestions_fail_soft (fun _ => Responds (Some answer_text))
                "buy milk and eggs today") as [_ [_ [_ [_ H]]]].
    destruct H as [H1 [H2 _]]; [simpl; lia|].
    specialize (H2 "{"%char answer_tail answer eq_refl eq_refl).
    destruct (geminiService.getSmartSuggestions
                (fun _ => Responds (Some answer_text)) "buy milk and eggs today")
      as [ps res].
    cbn [fst snd] in H1, H2. now rewrite H1, H2.
Defined.

Lemma enhanceNote_truthy ai content :
  JS.truthy content = true ->
  JS.truthy (snd (geminiService.enhanceNote ai content)) = true.
Proof.
  unfold geminiService.enhanceNote. cbn [snd]. intros H.
  destruct (ai (geminiService.enhancePrompt content)) as [[[|c text]|]|]; cbn; auto.
Qed.

(** X12.  [enhanceNote] sends exactly one prompt and resolves with the
    content it was given or with the non-empty text of the answer: a
    rejection, a missing text and an empty text give the content back, and a
    content that is not empty never comes back empty. *)
Theorem enhanceNote_keeps_content (ai : string -> Remote) (content : string) :
  fst (enhanceNote ai content) = [enhancePrompt content]
  /\ (snd (enhanceNote ai content) = content
      \/ exists c text, ai (enhancePrompt content) = Responds (Some (String c text))
                        /\ snd (enhanceNote ai content) = String c text)
  /\ (JS.truthy content = true -> JS.truthy (snd (enhanceNote ai content)) = true)
  /\ (ai (enhancePrompt content) = Rejects
      \/ ai (enhancePrompt content) = Responds None
      \/ ai (enhancePrompt content) = Responds (Some EmptyString) ->
      snd (enhanceNote ai content) = content).
Proof.
  unfold enhanceNote. cbn [fst snd]. split; [reflexivity|].
  destruct (ai (enhancePrompt content)) as [[[|c text]|]|]; cbn.
  - repeat split; auto.
  - split; [right; eauto|]. split; [intros _; reflexivity|].
    intros [H|[H|H]]; discriminate.
  - repeat split; auto.
  - repeat split; auto.
Qed.

Lemma enhanceNote_keeps_content_witness :
  snd (enhanceNote (fun _ => Rejects) "buy milk") = "buy milk"
  /\ JS.truthy (snd (enhanceNote (fun _ => Responds (Some "Buy milk.")) "buy milk")) = true.
Proof.
  split.
  - apply (enhanceNote_keeps_content (fun _ => Rejects) "buy milk"). now left.
  - apply (enhanceNote_keeps_content (fun _ => Responds (Some "Buy milk.")) "buy milk").
    reflexivity.
Defined.

(** X13.  On a draft whose content has one to nine code units the Smart
    Suggest button is enabled; the click sets the busy flag, but no prompt is
    sent, and whatever the remote model would have answered, the draft and
    the collection are as before once the request settles, with the flag
    released. *)
Theorem short_content_suggest_is_idle (s : State) (e : Note) (r : Remote) :
  modal s = Some e -> isAILoading s = false -> inFlight s = [] ->
  JS.truthy (content e) = true -> (String.length (content e) < 10)%nat ->
  exists s1 s2,
    step s ClickSmartSuggest = Some s1
    /\ isAILoading s1 = true /\ inFlight s1 = [Suggesting (content e)]
    /\ fst (geminiService.getSmartSuggestions (fun _ => r) (content e)) = []
    /\ step s1 (SuggestSettles r) = Some s2
    /\ editingNote s2 = Some e /\ isAILoading s2 = false /\ inFlight s2 = []
    /\ notes s2 = notes s.
Proof.
  intros Hm Hl Hf Ht Hlen.
  pose proof (modal_editing _ _ Hm) as He.
  assert (Hs1 : handleAISuggestions s
                = setInFlight [Suggesting (content e)] (setIsAILoading true s)).
  { unfold handleAISuggestions. rewrite He, Ht, Hf. reflexivity. }
  assert (Hg : geminiService.getSmartSuggestions (fun _ => r) (content e) = ([], Some (JObj []))).
  { unfold geminiService.getSmartSuggestions. apply Nat.ltb_lt in Hlen. now rewrite Hlen, orb_true_r. }
  exists (handleAISuggestions s). eexists.
  split.
  { cbn [step]. unfold onModal, aiButtonDisabled. rewrite Hm, Hl, Ht. reflexivity. }
  rewrite Hs1. split; [reflexivity|]. split; [reflexivity|].
  split; [now rewrite Hg|]. split.
  { cbn [step setInFlight inFlight]. rewrite Hg. cbn [snd].
    cbn [setIsAILoading editingNote]. rewrite settle_empty. reflexivity. }
  cbn. rewrite He. repeat split.
Qed.

Lemma short_content_suggest_is_idle_witness :
  exists s1 s2,
    step (mkState [] EmptyString All (Some groceries) true false [] (persist []))
         ClickSmartSuggest = Some s1
    /\ step s1 (SuggestSettles (Responds (Some "not json"))) = Some s2
    /\ editingNote s2 = Some groceries.
Proof.
  destruct (short_content_suggest_is_idle
              (mkState [] EmptyString All (Some groceries) true false [] (persist []))
              groceries (Responds (Some "not json")) eq_refl eq_refl eq_refl eq_refl)
    as [s1 [s2 [H1 [_ [_ [_ [H2 [H3 _]]]]]]]].
  - simpl. lia.
  - exists s1, s2. repeat split; assumption.
Defined.

(** X14.  AI Enhance on a draft with content: the click sets the busy flag
    and a second click is ignored; when the request settles, only the content
    of the draft changes, to what [enhanceNote] resolved with, which is never
    empty; the flag is released and the collection is untouched. *)
Theorem enhance_flow (s : State) (e : Note) (r : Remote) :
  modal s = Some e -> isAILoading s = false -> inFlight s = [] ->
  JS.truthy (content e) = true ->
  exists s1 s2,
    step s ClickAIEnhance = Some s1
    /\ isAILoading s1 = true
    /\ step s1 ClickAIEnhance = Some s1
    /\ step s1 (EnhanceSettles r) = Some s2
    /\ editingNote s2
       = Some (mkNote (id e) (title e) (snd (enhanceNote (fun _ => r) (content e)))
                      (category e) (updatedAt e) (isFavorite e))
    /\ (forall e2, editingNote s2 = Some e2 -> JS.truthy (content e2) = true)
    /\ isAILoading s2 = false /\ inFlight s2 = []
    /\ notes s2 = notes s.
Proof.
  intros Hm Hl Hf Ht.
  pose proof (modal_editing _ _ Hm) as He.
  assert (Hs1 : handleAIEnhance s
                = setInFlight [Enhancing (content e)] (setIsAILoading true s)).
  { unfold handleAIEnhance. rewrite He, Ht, Hf. reflexivity. }
  exists (handleAIEnhance s). eexists.
  split.
  { cbn [step]. unfold onModal, aiButtonDisabled. rewrite Hm, Hl, Ht. reflexivity. }
  rewrite Hs1. split; [reflexivity|]. split.
  { cbn [step]. unfold onModal, modal, aiButtonDisabled. cbn.
    unfold modal in Hm. destruct (isNoteModalOpen s); [|discriminate].
    rewrite Hm. reflexivity. }
  split; [cbn [step setInFlight inFlight]; reflexivity|].
  cbn. rewrite He. cbn. split; [reflexivity|]. split; [|repeat split].
  intros e2 [= <-]. cbn.
  exact (enhanceNote_truthy (fun _ => r) (content e) Ht).
Qed.

Lemma enhance_flow_witness :
  exists s1 s2,
    step editing ClickAIEnhance = Some s1
    /\ step s1 (EnhanceSettles Rejects) = Some s2
    /\ editingNote s2 = Some draft.
Proof.
  destruct (enhance_flow editing draft Rejects eq_refl eq_refl eq_refl eq_refl)
    as [s1 [s2 [H1 [_ [_ [H2 [H3 _]]]]]]].
  exists s1, s2. repeat split; assumption.
Defined.

(** ** The export *)

Lemma underscore_runs_no_space b s : no_space (underscore_runs b s) = true.
Proof.
  revert b. induction s as [|c s IH]; intros b; [reflexivity|].
  cbn [underscore_runs]. destruct (is_space c) eqn:E.
  - destruct b; [apply IH|]. cbn. apply IH.
  - cbn. rewrite E. cbn. apply IH.
Qed.

Lemma underscore_runs_clean b s : no_space s = true -> underscore_runs b s = s.
Proof.
  revert b. induction s as [|c s IH]; intros b; [reflexivity|].
  cbn. destruct (is_space c); cbn; [discriminate|]. intros H. now rewrite IH.
Qed.

Lemma no_space_app a b : no_space (a ++ b) = no_space a && no_space b.
Proof.
  induction a as [|c a IH]; [reflexivity|]. cbn. rewrite IH. now rewrite andb_assoc.
Qed.

Lemma underscore_runs_length b s :
  (String.length (underscore_runs b s) <= String.length s)%nat.
Proof.
  revert b. induction s as [|c s IH]; intros b; [simpl; lia|].
  cbn [underscore_runs]. destruct (is_space c).
  - destruct b; cbn; [specialize (IH true) | specialize (IH true)]; lia.
  - cbn. specialize (IH false). lia.
Qed.

Lemma underscore_runs_word a x :
  no_space a = true ->
  forall b, underscore_runs b (a ++ x)
            = a ++ underscore_runs (match a with EmptyString => b | _ => false end) x.
Proof.
  induction a as [|c a IH]; intros Ha b; [reflexivity|].
  cbn in Ha. apply andb_true_iff in Ha. destruct Ha as [Hc Ha].
  apply negb_true_iff in Hc. cbn [append underscore_runs]. rewrite Hc.
  rewrite (IH Ha false). now destruct a.
Qed.

Lemma underscore_runs_in_run w r :
  all_space w = true -> starts_clean r = true ->
  underscore_runs true (w ++ r) = underscore_runs false r.
Proof.
  intros Hw Hr. induction w as [|c w IH].
  - destruct r as [|c r]; [reflexivity|]. cbn in Hr. apply negb_true_iff in Hr.
    cbn. now rewrite Hr.
  - cbn in Hw. apply andb_true_iff in Hw. destruct Hw as [Hc Hw].
    cbn [append underscore_runs]. rewrite Hc. now apply IH.
Qed.

(** A word, a run of white space and what follows: the run becomes one
    underscore. *)
Lemma underscore_runs_run a w r :
  no_space a = true -> all_space w = true -> w <> EmptyString ->
  starts_clean r = true ->
  underscore_runs false (a ++ w ++ r) = a ++ "_" ++ underscore_runs false r.
Proof.
  intros Ha Hw Hne Hr. rewrite (underscore_runs_word a _ Ha false).
  assert (E : underscore_runs (match a with EmptyString => false | _ => false end)
                (w ++ r) = underscore_runs false (w ++ r)) by now destruct a.
  rewrite E. f_equal.
  destruct w as [|c w]; [congruence|].
  cbn in Hw. apply andb_true_iff in Hw. destruct Hw as [Hc Hw].
  cbn [append underscore_runs]. rewrite Hc. cbn. f_equal.
  now apply underscore_runs_in_run.
Qed.

(** X15.  The export takes "Untitled Note" for an empty title and names the
    file after the title with every run of white space turned into one
    underscore, followed by [.pdf]: the file name has no white space, is
    never longer than the title plus the extension, and is the title itself
    plus the extension when the title has no white space; where the title is
    a word, a run of white space of any length and a rest, the name is the
    word, one underscore and the name that the rest gives.  The body and the
    category are those of the draft. *)
Theorem download_file_name (e : Note) :
  exists d,
    handleDownloadPDF (Some e) = Some d
    /\ no_space (fileName d) = true
    /\ (exists stem, fileName d = stem ++ ".pdf"
                     /\ (String.length stem <= String.length (docTitle d))%nat)
    /\ JS.truthy (docTitle d) = true
    /\ (JS.truthy (title e) = true -> docTitle d = title e)
    /\ (JS.truthy (title e) = true -> no_space (title e) = true ->
        fileName d = title e ++ ".pdf")
    /\ (title e = EmptyString -> fileName d = "Untitled_Note.pdf")
    /\ docContent d = content e /\ docCategory d = category e
    /\ (forall a w r,
          title e = a ++ w ++ r ->
          no_space a = true -> all_space w = true -> w <> EmptyString ->
          starts_clean r = true ->
          fileName d = a ++ "_" ++ underscore_runs false r ++ ".pdf").
Proof.
  eexists. split; [reflexivity|]. cbn [fileName docTitle docContent docCategory].
  split; [rewrite no_space_app, underscore_runs_no_space; reflexivity|].
  split; [eexists; split; [reflexivity | apply underscore_runs_length]|].
  split; [destruct (title e); reflexivity|].
  split; [intros H; unfold JS.or_else; now rewrite H|].
  split.
  - intros H Hn. unfold JS.or_else. rewrite H. now rewrite underscore_runs_clean.
  - split; [intros ->; reflexivity|]. split; [destruct (content e); reflexivity|].
    split; [reflexivity|].
    intros a w r Ht Ha Hw Hne Hr.
    assert (Htr : JS.truthy (title e) = true).
    { rewrite Ht. destruct a; [|reflexivity]. destruct w; [congruence | reflexivity]. }
    unfold JS.or_else. rewrite Htr, Ht.
    rewrite (underscore_runs_run a w r Ha Hw Hne Hr).
    now rewrite !StringFacts.append_assoc.
Qed.

Lemma download_file_name_witness :
  (exists d, handleDownloadPDF (Some groceries) = Some d
             /\ fileName d = "Groceries.pdf")
  /\ (exists d, handleDownloadPDF (Some meeting) = Some d
                /\ fileName d = "Budget_meeting.pdf")
  /\ (exists d, handleDownloadPDF (Some trip) = Some d
                /\ fileName d = "Trip_to_Rome.pdf").
Proof.
  split; [|split].
  - destruct (download_file_name groceries) as [d [H1 [_ [_ [_ [_ [H2 _]]]]]]].
    exists d. split; [exact H1|]. apply H2; reflexivity.
  - destruct (download_file_name meeting) as [d [H1 [_ [_ [_ [_ [_ [_ [_ [_ H]]]]]]]]]].
    exists d. split; [exact H1|].
    rewrite (H "Budget" " " "meeting" eq_refl eq_refl eq_refl
               ltac:(discriminate) eq_refl).
    reflexivity.
  - destruct (download_file_name trip) as [d [H1 [_ [_ [_ [_ [_ [_ [_ [_ H]]]]]]]]]].
    exists d. split; [exact H1|].
    rewrite (H "Trip" "   " "to  Rome" eq_refl eq_refl eq_refl
               ltac:(discriminate) eq_refl).
    reflexivity.
Defined.

(** ** Restarting the page *)
(** X16.  From every state the page reaches, a restart succeeds and comes up
    with the same collection and the same storage slot, an empty search, the
    filter on "All Notes", no draft and no pending AI call; restarting right
    after a start gives the same state again. *)
Theorem restart_keeps_collection (saved : Storage) (s0 : State) (evs : list Event)
    (s : State) :
  mount saved = Some s0 -> run s0 evs = Some s ->
  step s Reload
  = Some (mkState (notes s) EmptyString All None false false [] (localStorage s))
  /\ mount (localStorage s0) = Some s0.
Proof.
  intros Hm Hr.
  pose proof (run_written evs s0 s (mount_written _ _ Hm) Hr) as Hw.
  split.
  - cbn [step]. rewrite Hw, mount_persist. reflexivity.
  - pose proof (mount_written _ _ Hm) as Hw0. rewrite Hw0, mount_persist.
    unfold mount in Hm. destruct (load saved) as [j| | |]; try discriminate.
    destruct (notes_of_json j); try discriminate. now injection Hm as <-.
Qed.

Lemma restart_keeps_collection_witness :
  step busy Reload = Some fresh.
Proof.
  apply (restart_keeps_collection None fresh
           [ClickNewNote 1 1; ModalContent "buy milk and eggs today"; ClickSmartSuggest]
           busy eq_refl eq_refl).
Defined.

(** ** The suggestions, from the answer to the draft *)

Lemma settle_nothing j prev :
  suggests_nothing j -> settleSuggestions j prev = Updated prev.
Proof.
  destruct prev as [[i t c g u f]|]; [|reflexivity].
  destruct j as [| b | z | w | l | m]; try contradiction;
    try (intros _; destruct t; reflexivity).
  intros [Ht Hg]. cbn [settleSuggestions read]. rewrite Ht, Hg.
  destruct t; reflexivity.
Qed.

Lemma long_content_truthy c : (10 <= String.length c)%nat -> JS.truthy c = true.
Proof. destruct c; simpl; [lia | reflexivity]. Qed.

Lemma getSmartSuggestions_nothing r c :
  without_suggestions r ->
  exists j, snd (getSmartSuggestions (fun _ => r) c) = Some j /\ suggests_nothing j.
Proof.
  intros H. unfold getSmartSuggestions.
  destruct (negb (JS.truthy c) || (String.length c <? 10)%nat).
  { exists (JObj []). split; [reflexivity | split; reflexivity]. }
  cbn [snd].
  destruct H as [->|[->|[->|[a [text [-> [H|[j [H Hj]]]]]]]]].
  - exists (JObj []). split; [reflexivity | split; reflexivity].
  - exists (JObj []). split; [reflexivity | split; reflexivity].
  - exists (JObj []). split; [reflexivity | split; reflexivity].
  - exists (JObj []). cbn. rewrite H. split; [reflexivity | split; reflexivity].
  - exists j. cbn. rewrite H. split; [reflexivity | exact Hj].
Qed.

(** X17.  A pending suggestion request on a draft settles as follows.  When
    the remote model answers, for a content of ten code units or more, with
    a text that is JSON for an object of the declared type, the draft keeps
    a title that is not empty and takes the title of the answer (or stays
    empty) when it is empty, its category becomes the category of the answer
    when there is one, and nothing else in the draft changes.  When the
    remote call rejects, or answers with no text, an empty text, a text that
    is no JSON, or JSON that is neither [null] nor an object with a title or
    a category, the draft stays exactly as it is.  Either way the busy flag
    is released, the request is no longer pending, and the collection is
    untouched. *)
Theorem suggestions_settle (s : State) (c : string) (rest : list AICall) (p : Note) :
  inFlight s = Suggesting c :: rest -> editingNote s = Some p ->
  (forall a text j sg,
      (10 <= String.length c)%nat ->
      JSON.parse (String a text) = Ok j -> AIResponse_of_json j = Some sg ->
      exists s',
        step s (SuggestSettles (Responds (Some (String a text)))) = Some s'
        /\ editingNote s'
           = Some (mkNote (id p)
                     (match title p with
                      | EmptyString =>
                          match AIResponse.title sg with
                          | Some t => t
                          | None => EmptyString
                          end
                      | String _ _ => title p
                      end)
                     (content p)
                     (match AIResponse.suggestedCategory sg with
                      | Some g => g
                      | None => category p
                      end)
                     (updatedAt p) (isFavorite p))
        /\ isAILoading s' = false /\ inFlight s' = rest /\ notes s' = notes s)
  /\ (forall r, without_suggestions r ->
        exists s',
          step s (SuggestSettles r) = Some s'
          /\ editingNote s' = Some p
          /\ isAILoading s' = false /\ inFlight s' = rest /\ notes s' = notes s).
Proof.
  intros Hf He. split.
  - intros a text j sg Hlen Hp Hsg.
    assert (Hg : snd (getSmartSuggestions
                        (fun _ => Responds (Some (String a text))) c) = Some j).
    { unfold getSmartSuggestions. rewrite (long_content_truthy c Hlen).
      apply Nat.ltb_ge in Hlen. rewrite Hlen. cbn. now rewrite Hp. }
    cbn [step]. rewrite Hf, Hg, He, (settle_typed j sg (Some p) Hsg).
    cbn [applySuggestions]. rewrite title_or_suggested.
    eexists. split; [reflexivity|]. repeat split.
  - intros r Hr. destruct (getSmartSuggestions_nothing r c Hr) as [j [Hg Hj]].
    cbn [step]. rewrite Hf, Hg, He, (settle_nothing j (Some p) Hj).
    eexists. split; [reflexivity|]. repeat split.
Qed.

Lemma suggestions_settle_witness :
  (exists s',
      step waiting (SuggestSettles (Responds (Some answer_text))) = Some s'
      /\ editingNote s'
         = Some (mkNote "1700000000000" "Shopping" "buy milk and eggs today" Personal
                        1700000000000 false))
  /\ (exists s',
        step waiting (SuggestSettles (Responds (Some "42"))) = Some s'
        /\ editingNote s' = Some draft).
Proof.
  destruct (suggestions_settle waiting "buy milk and eggs today" [] draft
              eq_refl eq_refl) as [H1 H2].
  split.
  - destruct (H1 "{"%char answer_tail answer
                (AIResponse.mk (Some "Shopping") (Some "A shopping list.")
                               (Some Personal))
                ltac:(simpl; lia) eq_refl eq_refl) as [s' [Hs [Hd _]]].
    exists s'. split; [exact Hs | exact Hd].
  - destruct (H2 (Responds (Some "42"))) as [s' [Hs [Hd _]]].
    + right; right; right. exists "4"%char, "2". split; [reflexivity|].
      right. exists (JNum 42). split; [reflexivity | exact I].
    + exists s'. split; [exact Hs | exact Hd].
Defined.
